(** * Regression training for decision stumps (boosting/stump_regress.h)

    A shallow embedding of the three objects of [stump_regress.h]:
    the accumulator [W_regress], the split score [Z_regress] and the leaf
    predictor [C_regress].

    The C++ code is written over [double] and [float].  Every function is
    embedded once, over a scalar type carrying the C++ operators the code
    uses, and is then read through two instances:

    - [IEEE]: binary64 machine floats (the kernel's primitive floats),
      with [float] values rounded to binary32; this is what the compiled
      code computes, NaN and rounding included;
    - [Exact]: the rationals, the same program text in exact arithmetic,
      under which the algebraic laws of the accumulator (conservation,
      variance bounds) are stated. *)

From Stdlib Require Import ZArith NArith QArith Bool List String Lia Lqa.
From Stdlib Require Import Permutation.
From Stdlib Require Import PrimFloat SpecFloat FloatOps FloatAxioms.
Import ListNotations.

Set Implicit Arguments.
Set Warnings "-inexact-float".

(** ** Scalars *)

(** The operators and literals of the C++ source, over a scalar type [T]
    standing for [double].  [to_float] is the conversion to [float]
    (a value of type [float] is kept as the [double] it converts to). *)
Class Scalar (T : Type) : Type := {
  lit_0_0    : T;                 (* 0.0    *)
  lit_1_0    : T;                 (* 1.0    *)
  lit_m1_0   : T;                 (* -1.0   *)
  lit_1e_20  : T;                 (* 1e-20  *)
  lit_1_0001 : T;                 (* 1.0001 *)
  lit_1e100  : T;                 (* 1e100  *)
  plus   : T -> T -> T;           (* a + b  *)
  minus  : T -> T -> T;           (* a - b  *)
  times  : T -> T -> T;           (* a * b  *)
  divide : T -> T -> T;           (* a / b  *)
  less       : T -> T -> bool;    (* a < b  *)
  less_equal : T -> T -> bool;    (* a <= b *)
  equal_to   : T -> T -> bool;    (* a == b *)
  to_float   : T -> T             (* (float) a *)
}.

(** [a > b] and [a != b] on arithmetic types: [a > b] is [b < a],
    [a != b] is [!(a == b)]. *)
Definition greater {T} `{Scalar T} (a b : T) : bool := less b a.
Definition not_equal_to {T} `{Scalar T} (a b : T) : bool := negb (equal_to a b).

(** [std::max(a, b)] of <algorithm>: [(a < b) ? b : a]. *)
Definition std_max {T} `{Scalar T} (a b : T) : T := if less a b then b else a.

(** *** IEEE instance *)

Module IEEE.

(** Rounding of a binary64 value to the nearest binary32 value (ties to
    even), as the conversion [double -> float] does; the result is kept
    as the binary64 value that represents it exactly. *)
Definition to_binary32 (x : float) : float :=
  match Prim2SF x with
  | S754_finite s m e => SF2Prim (binary_round 24 128 s m e)
  | _ => x
  end.

#[global] Instance scalar : Scalar float := {|
  lit_0_0    := 0%float;
  lit_1_0    := 1%float;
  lit_m1_0   := (-1)%float;
  lit_1e_20  := 1e-20%float;
  lit_1_0001 := 1.0001%float;
  lit_1e100  := 1e100%float;
  plus   := PrimFloat.add;
  minus  := PrimFloat.sub;
  times  := PrimFloat.mul;
  divide := PrimFloat.div;
  less       := PrimFloat.ltb;
  less_equal := PrimFloat.leb;
  equal_to   := PrimFloat.eqb;
  to_float   := to_binary32
|}.

End IEEE.

(** *** Exact instance *)

Module Exact.

(** The same operators on rationals.  [Qdiv] is total ([x / 0 = 0] in
    [Q]); no statement below about this instance rests on the value of
    a division by zero. *)
#[global] Instance scalar : Scalar Q := {|
  lit_0_0    := 0%Q;
  lit_1_0    := 1%Q;
  lit_m1_0   := (-1)%Q;
  lit_1e_20  := (1 # 100000000000000000000)%Q;
  lit_1_0001 := (10001 # 10000)%Q;
  lit_1e100  := inject_Z (10 ^ 100);
  plus   := Qplus;
  minus  := Qminus;
  times  := Qmult;
  divide := Qdiv;
  less       := fun a b => negb (Qle_bool b a);
  less_equal := Qle_bool;
  equal_to   := Qeq_bool;
  to_float   := fun a => a
|}.

End Exact.

(** ** Buckets and the arrays indexed by them *)

(** Modelled from the spec: the bucket indices of [stump_training.h]
    (not among the sources): FALSE = 0, TRUE = 1, MISSING = 2.  The
    [int bucket] arguments of the source range over these three values
    (index validity is the caller's obligation). *)
Inductive Bucket : Type := FALSE | TRUE | MISSING.

Definition bucket_index (b : Bucket) : nat :=
  match b with FALSE => 0 | TRUE => 1 | MISSING => 2 end.

(** [double a[3]]. *)
Record array3 (T : Type) : Type := Array3 { elt0 : T; elt1 : T; elt2 : T }.

Section Array3.
Context {T : Type}.

(** [a[b]] *)
Definition get (a : array3 T) (b : Bucket) : T :=
  match b with FALSE => elt0 a | TRUE => elt1 a | MISSING => elt2 a end.

(** [a[b] = v] *)
Definition set (a : array3 T) (b : Bucket) (v : T) : array3 T :=
  match b with
  | FALSE   => Array3 v (elt1 a) (elt2 a)
  | TRUE    => Array3 (elt0 a) v (elt2 a)
  | MISSING => Array3 (elt0 a) (elt1 a) v
  end.
End Array3.

(** ** Collaborators of the accumulator *)

(** [ML::Exception], as the source uses it: thrown with a message. *)
Inductive Exception : Type := mkException (what : string).

(** A call either returns or throws. *)
Inductive outcome (A : Type) : Type :=
| Returns (a : A)
| Throws (e : Exception).
Arguments Returns {A} a.
Arguments Throws {A} e.

(** The two exceptions of this file; the error kinds the specification
    calls [InvalidProblem] and [NotImplemented]. *)
Definition InvalidProblem : Exception :=
  mkException "W_regress::W_regress(): not a regression problem".
Definition NotImplemented : Exception :=
  mkException "W_regress::transfer() not implemented".

(** [Label], as the source uses it: the code reads its [value()], a
    [float], and nothing else of it. *)
Record Label (T : Type) : Type := mkLabel { value : T }.

(** An iterator into the sample weights: [it k] is the weight [k] places
    after the position it points to, so [*it] is [it 0]. *)
Definition Iterator (T : Type) : Type := nat -> T.
Definition deref {T} (it : Iterator T) : T := it 0%nat.

(** ** W array *)

(** [struct W_regress]: [double dist[3], sqr[3], wt[3]]. *)
Record W_regress (T : Type) : Type := mkW {
  dist : array3 T;   (* Sum of value * weight   *)
  sqr  : array3 T;   (* Sum of weight * value^2 *)
  wt   : array3 T    (* Sum of weight           *)
}.

Section W.
Context {T : Type} `{Scalar T}.

Definition set_dist (w : W_regress T) (b : Bucket) (v : T) : W_regress T :=
  mkW (set (dist w) b v) (sqr w) (wt w).
Definition set_sqr (w : W_regress T) (b : Bucket) (v : T) : W_regress T :=
  mkW (dist w) (set (sqr w) b v) (wt w).
Definition set_wt (w : W_regress T) (b : Bucket) (v : T) : W_regress T :=
  mkW (dist w) (sqr w) (set (wt w) b v).

(** The state the constructor's loop leaves.  The loop assigns each of
    the nine fields, so the values they start from do not show. *)
Definition W_zero : W_regress T :=
  fold_left
    (fun w i => set_dist (set_sqr (set_wt w i lit_0_0) i lit_0_0) i lit_0_0)
    [FALSE; TRUE; MISSING]
    (let z := Array3 lit_0_0 lit_0_0 lit_0_0 in mkW z z z).

(** [W_regress::W_regress(size_t nl)] *)
Definition W_regress_new (nl : N) : outcome (W_regress T) :=
  if negb (N.eqb nl 1) then Throws InvalidProblem
  else Returns W_zero.

(** [size_t nl() const] *)
Definition nl (w : W_regress T) : N := 1%N.

(** [add(correct_label, bucket, weight, it, advance)] *)
Definition add (correct_label : Label T) (bucket : Bucket) (weight : T)
    (it : Iterator T) (advance : Z) (self : W_regress T) : W_regress T :=
  let f   := to_float (value correct_label) in
  let w   := to_float (times (deref it) (to_float weight)) in
  let fw  := to_float (times f w) in
  let ffw := to_float (times f fw) in
  let self := set_dist self bucket (plus (get (dist self) bucket) fw) in
  let self := set_sqr self bucket (plus (get (sqr self) bucket) ffw) in
  let self := set_wt self bucket (plus (get (wt self) bucket) w) in
  self.

(** [add(correct_label, bucket, it, advance)] *)
Definition add_unweighted (correct_label : Label T) (bucket : Bucket)
    (it : Iterator T) (advance : Z) (self : W_regress T) : W_regress T :=
  add correct_label bucket lit_1_0 it advance self.

(** [transfer(correct_label, from, to, weight, it, advance)] *)
Definition transfer (correct_label : Label T) (from to : Bucket) (weight : T)
    (it : Iterator T) (advance : Z) (self : W_regress T) : W_regress T :=
  let f   := to_float (value correct_label) in
  let w   := to_float (times (deref it) (to_float weight)) in
  let fw  := to_float (times f w) in
  let ffw := to_float (times f fw) in
  let self := set_dist self from (minus (get (dist self) from) fw) in
  let self := set_sqr self from (minus (get (sqr self) from) ffw) in
  let self := set_wt self from (minus (get (wt self) from) w) in
  let self := set_dist self to (plus (get (dist self) to) fw) in
  let self := set_sqr self to (plus (get (sqr self) to) ffw) in
  let self := set_wt self to (plus (get (wt self) to) w) in
  self.

(** [transfer(from, to, w)]: the outcome of the call and the state of
    the receiving accumulator after it. *)
Definition transfer_W (from to : Bucket) (w : W_regress T)
    (self : W_regress T) : outcome unit * W_regress T :=
  (Throws NotImplemented, self).

(** [clip(bucket)] *)
Definition clip (bucket : Bucket) (self : W_regress T) : W_regress T :=
  let self := set_dist self bucket (std_max (get (dist self) bucket) lit_0_0) in
  let self := set_sqr self bucket (std_max (get (sqr self) bucket) lit_0_0) in
  let self := set_wt self bucket (std_max (get (wt self) bucket) lit_0_0) in
  self.

(** [swap_buckets(b1, b2)] *)
Definition swap_buckets (b1 b2 : Bucket) (self : W_regress T) : W_regress T :=
  let swap3 (a : array3 T) :=
    let x := get a b1 in
    let a := set a b1 (get a b2) in
    set a b2 x in
  mkW (swap3 (dist self)) (swap3 (sqr self)) (swap3 (wt self)).

End W.

(** ** Z formula *)

Section Z.
Context {T : Type} `{Scalar T}.

Definition worst   : T := lit_1e100.  (* worst possible Z value *)
Definition none    : T := lit_m1_0.   (* flag to indicate couldn't calculate *)
Definition perfect : T := lit_0_0.    (* best possible Z value *)

(** [Z_regress::equal] *)
Definition equal (z1 z2 : T) : bool := equal_to z1 z2.

(** [Z_regress::better] *)
Definition better (z1 z2 : T) : bool := not_equal_to z1 none && less z1 z2.

(** [Z_regress::missing]: the constant missing part. *)
Definition missing (w : W_regress T) (optional : bool) : T :=
  if greater (get (wt w) MISSING) lit_1e_20
  then minus (get (sqr w) MISSING)
             (divide (times (get (dist w) MISSING) (get (dist w) MISSING))
                     (get (wt w) MISSING))
  else lit_0_0.

(** [Z_regress::non_missing]: the loop over [i = 0, 1]. *)
Definition non_missing (w : W_regress T) (missing : T) : T :=
  fold_left
    (fun result i =>
       if greater (get (wt w) i) lit_1e_20
       then plus result
                 (minus (get (sqr w) i)
                        (divide (times (get (dist w) i) (get (dist w) i))
                                (get (wt w) i)))
       else result)
    [FALSE; TRUE]
    missing.

(** [Z_regress::non_missing_presence] *)
Definition non_missing_presence (w : W_regress T) (missing : T) : T :=
  non_missing w missing.

(** [Z_regress::operator()]: [non_missing(w, missing(w))].  The source
    leaves out the [optional] argument of [missing], which [missing]
    does not read. *)
Definition Z_regress_call (w : W_regress T) : T :=
  non_missing w (missing w false).

(** [Z_regress::can_beat] *)
Definition can_beat (w : W_regress T) (missing z_best : T) : bool :=
  less_equal missing (times z_best lit_1_0001).

End Z.

(** ** C formula *)

Section C.
Context {T : Type} `{Scalar T}.

(** [distribution<float>]: a vector of floats. *)
Definition distribution : Type := list T.

(** [v[n] = x] on a vector; the source only writes inside the bounds
    (outside them the write is left out here). *)
Fixpoint assign {A : Type} (v : list A) (n : nat) (x : A) : list A :=
  match v, n with
  | [], _ => []
  | _ :: v', O => x :: v'
  | y :: v', S n' => y :: assign v' n' x
  end.

(** [result[i][0] = x] *)
Definition assign_row (result : list distribution) (i : nat) (x : T)
    : list distribution :=
  assign result i (assign (nth i result []) 0 x).

(** The inner loop over [j = 0, 1, 2]: [(total, total_wt)]. *)
Definition totals (w : W_regress T) : T * T :=
  fold_left
    (fun '(total, total_wt) j =>
       (plus total (get (dist w) j), plus total_wt (get (wt w) j)))
    [FALSE; TRUE; MISSING]
    (lit_0_0, lit_0_0).

(** [C_regress::operator()] *)
Definition C_regress_call (w : W_regress T) (epsilon : T) (optional : bool)
    : list distribution :=
  let model : distribution := repeat (to_float lit_0_0) 1 in
  let result := repeat model 3 in
  fold_left
    (fun result i =>
       if greater (get (wt w) i) lit_1e_20
       then assign_row result (bucket_index i)
              (to_float (divide (get (dist w) i) (get (wt w) i)))
       else
         let '(total, total_wt) := totals w in
         assign_row result (bucket_index i)
           (to_float (divide total total_wt)))
    [FALSE; TRUE; MISSING]
    result.

End C.

(** ** Vocabulary of the statements *)

(** [x == x]: false exactly when [x] is a NaN (never, on rationals). *)
Definition ordered {T} `{Scalar T} (x : T) : bool := equal_to x x.

(** The order facts about [<], [<=] and [==] that IEEE comparison and the
    rationals share, NaN being set apart by [ordered]; and the two facts
    about the literals [0.0] and [1e-20] the statements use. *)
Class ScalarOrder (T : Type) {S : Scalar T} : Prop := {
  less_less_equal : forall a b : T, less a b = true -> less_equal a b = true;
  less_equal_not_less : forall a b : T, less_equal a b = true -> less b a = false;
  not_less_less_equal : forall a b : T,
    ordered a = true -> ordered b = true -> less a b = false -> less_equal b a = true;
  less_equal_refl : forall a : T, ordered a = true -> less_equal a a = true;
  zero_ordered : ordered lit_0_0 = true;
  zero_less_equal_1e_20 : less_equal lit_0_0 lit_1e_20 = true;
  plus_zero_zero : plus lit_0_0 lit_0_0 = lit_0_0
}.
Arguments ScalarOrder T {S}.

(** Sum of a field over the three buckets. *)
Definition sum3 {T} `{Scalar T} (a : array3 T) : T :=
  plus (plus (get a FALSE) (get a TRUE)) (get a MISSING).

(** The row of a prediction vector that belongs to bucket [i]. *)
Definition prediction {T} (result : list (list T)) (i : Bucket) : list T :=
  nth (bucket_index i) result [].

(** The fallback value of the leaf predictor: [total / total_wt]. *)
Definition sample_mean {T} `{Scalar T} (w : W_regress T) : T :=
  divide (fst (totals w)) (snd (totals w)).

(** The value [C_regress::operator()] stores for bucket [i]. *)
Definition leaf_value {T} `{Scalar T} (w : W_regress T) (i : Bucket) : T :=
  if greater (get (wt w) i) lit_1e_20
  then to_float (divide (get (dist w) i) (get (wt w) i))
  else to_float (sample_mean w).

(** A call of [add] or of the per-example [transfer], with its arguments. *)
Inductive call (T : Type) : Type :=
| Add (correct_label : Label T) (bucket : Bucket) (weight : T)
      (it : Iterator T) (advance : Z)
| Transfer (correct_label : Label T) (from to : Bucket) (weight : T)
      (it : Iterator T) (advance : Z).

Section Calls.
Context {T : Type} `{Scalar T}.

Definition perform (c : call T) (self : W_regress T) : W_regress T :=
  match c with
  | Add l b wgt it adv => add l b wgt it adv self
  | Transfer l from to wgt it adv => transfer l from to wgt it adv self
  end.

(** A sequence of calls, first call first. *)
Definition run (cs : list (call T)) (self : W_regress T) : W_regress T :=
  fold_left (fun w c => perform c w) cs self.

Definition is_add (c : call T) : bool :=
  match c with Add _ _ _ _ _ => true | Transfer _ _ _ _ _ _ => false end.

(** The same sequence with its transfers left out. *)
Definition adds_only (cs : list (call T)) : list (call T) := filter is_add cs.

(** The weight a call hands over: [*it * weight]. *)
Definition call_weight (c : call T) : T :=
  match c with
  | Add _ _ wgt it _ => times (deref it) wgt
  | Transfer _ _ _ wgt it _ => times (deref it) wgt
  end.

End Calls.

(** A weight slice holding [x] at every place, and one holding [x] at the
    place pointed to and [y] after it. *)
Definition constant_weights {T} (x : T) : Iterator T := fun _ => x.
Definition weights_then {T} (x y : T) : Iterator T :=
  fun k => match k with O => x | S _ => y end.

(** In exact arithmetic: two states with the same sum over the buckets of
    each of [dist], [sqr] and [wt]. *)
Definition same_sums (w1 w2 : W_regress Q) : Prop :=
  (sum3 (dist w1) == sum3 (dist w2))%Q /\
  (sum3 (sqr w1) == sum3 (sqr w2))%Q /\
  (sum3 (wt w1) == sum3 (wt w2))%Q.

(** In exact arithmetic: the statistics of every bucket obey the
    Cauchy-Schwarz inequality [dist^2 <= sqr * wt], as sums of
    [f*w], [f*f*w] and [w] over examples of weight [w >= 0] do. *)
Definition coherent (w : W_regress Q) : Prop :=
  forall b : Bucket,
    (get (dist w) b * get (dist w) b <= get (sqr w) b * get (wt w) b)%Q.

(** In exact arithmetic: every bucket has non-negative [wt] and [sqr]
    and obeys the Cauchy-Schwarz inequality. *)
Definition sums_of_weighted_examples (w : W_regress Q) : Prop :=
  forall b : Bucket,
    (0 <= get (wt w) b /\ 0 <= get (sqr w) b /\
     get (dist w) b * get (dist w) b <= get (sqr w) b * get (wt w) b)%Q.

(** ** Example runs *)

Section Examples.
Context {T : Type} `{Scalar T}.

(** A weight slice of unit weights. *)
Definition unit_weights : Iterator T := constant_weights lit_1_0.

(** Five unit-weight examples with labels [1, -1, 1, 1, -1], each added
    to bucket TRUE of a fresh accumulator. *)
Definition five_examples : list (call T) :=
  map (fun f => Add (mkLabel f) TRUE lit_1_0 unit_weights 1)
      [lit_1_0; lit_m1_0; lit_1_0; lit_1_0; lit_m1_0].

Definition w_five : W_regress T := run five_examples W_zero.

(** ... and then one example of label 1 and weight 1 moved from TRUE to
    FALSE. *)
Definition w_five_moved : W_regress T :=
  transfer (mkLabel lit_1_0) TRUE FALSE lit_1_0 unit_weights 1 w_five.

(** Labels 1 and -1 added to MISSING, label 1 added twice to FALSE, and
    then an example of label 0 moved from FALSE to TRUE (all of unit
    weight): FALSE is left with [wt = 1], [dist = 2], [sqr = 2]. *)
Definition w_incoherent : W_regress T :=
  run [ Add (mkLabel lit_1_0)  MISSING lit_1_0 unit_weights 1;
        Add (mkLabel lit_m1_0) MISSING lit_1_0 unit_weights 1;
        Add (mkLabel lit_1_0)  FALSE   lit_1_0 unit_weights 1;
        Add (mkLabel lit_1_0)  FALSE   lit_1_0 unit_weights 1;
        Transfer (mkLabel lit_0_0) FALSE TRUE lit_1_0 unit_weights 1 ]
      W_zero.

(** Labels 1 and -1 added to MISSING, nothing else. *)
Definition w_missing_only : W_regress T :=
  run [ Add (mkLabel lit_1_0)  MISSING lit_1_0 unit_weights 1;
        Add (mkLabel lit_m1_0) MISSING lit_1_0 unit_weights 1 ]
      W_zero.

(** One example of label 1 moved out of the empty bucket FALSE: its
    three fields are left at -1. *)
Definition w_negative : W_regress T :=
  transfer (mkLabel lit_1_0) FALSE TRUE lit_1_0 unit_weights 1 W_zero.

(** Weight [1e-20] and weighted label sum [1e-20] in bucket FALSE, the
    other two buckets empty. *)
Definition w_tiny : W_regress T :=
  mkW (Array3 lit_1e_20 lit_0_0 lit_0_0)
      (Array3 lit_1e_20 lit_0_0 lit_0_0)
      (Array3 lit_1e_20 lit_0_0 lit_0_0).

(** Three unit-weight examples of label 1 in FALSE, one of label -1 in
    MISSING, TRUE empty. *)
Definition w_true_empty : W_regress T :=
  run (repeat (Add (mkLabel lit_1_0) FALSE lit_1_0 unit_weights 1) 3
         ++ [Add (mkLabel lit_m1_0) MISSING lit_1_0 unit_weights 1])
      W_zero.

End Examples.

(** On IEEE doubles: [x] is a finite number, neither a NaN nor an
    infinity. *)
Definition finite_double (x : float) : bool :=
  match Prim2SF x with
  | S754_zero _ | S754_finite _ _ _ => true
  | S754_infinity _ | S754_nan => false
  end.

(** Weighted label sum 1 in bucket FALSE and no weight in any bucket. *)
Definition w_unit_over_zero {T} `{Scalar T} : W_regress T :=
  mkW (Array3 lit_1_0 lit_0_0 lit_0_0)
      (Array3 lit_1_0 lit_0_0 lit_0_0)
      (Array3 lit_0_0 lit_0_0 lit_0_0).

(** Three [add] calls of unit weight: labels 1 and -1 to MISSING, and
    label [f] to FALSE. *)
Definition three_examples {T} `{Scalar T} (f : T) : list (call T) :=
  [ Add (mkLabel lit_1_0)  MISSING lit_1_0 unit_weights 1;
    Add (mkLabel lit_m1_0) MISSING lit_1_0 unit_weights 1;
    Add (mkLabel f)        FALSE   lit_1_0 unit_weights 1 ].

(** ** Vocabulary of the further properties *)

(** The label a call carries. *)
Definition call_label {T} (c : call T) : Label T :=
  match c with
  | Add l _ _ _ _ => l
  | Transfer l _ _ _ _ _ => l
  end.

(** The contribution [sqr[i] - dist[i]^2 / wt[i]] of bucket [i] to the
    score, [0.0] when the guard [wt[i] > 1e-20] fails. *)
Definition variance_term {T} `{Scalar T} (w : W_regress T) (i : Bucket) : T :=
  if greater (get (wt w) i) lit_1e_20
  then minus (get (sqr w) i)
             (divide (times (get (dist w) i) (get (dist w) i)) (get (wt w) i))
  else lit_0_0.

(** In exact arithmetic: two arrays, and two states, with equal entries. *)
Definition array3_eq (a b : array3 Q) : Prop :=
  (elt0 a == elt0 b /\ elt1 a == elt1 b /\ elt2 a == elt2 b)%Q.

Definition W_eq (w1 w2 : W_regress Q) : Prop :=
  array3_eq (dist w1) (dist w2) /\
  array3_eq (sqr w1) (sqr w2) /\
  array3_eq (wt w1) (wt w2).

(** In exact arithmetic: what the [add] calls of a sequence hand over in
    all, as weight, as weighted label and as weighted squared label. *)
Definition added_wt (cs : list (call Q)) : Q :=
  fold_right (fun c s => call_weight c + s)%Q 0%Q (adds_only cs).
Definition added_dist (cs : list (call Q)) : Q :=
  fold_right (fun c s => value (call_label c) * call_weight c + s)%Q 0%Q
             (adds_only cs).
Definition added_sqr (cs : list (call Q)) : Q :=
  fold_right
    (fun c s => value (call_label c) * (value (call_label c) * call_weight c) + s)%Q
    0%Q (adds_only cs).

(** In exact arithmetic: every bucket holds statistics of examples that
    all carry the label [f]. *)
Definition uniform_label (f : Q) (w : W_regress Q) : Prop :=
  forall b : Bucket,
    (get (dist w) b == f * get (wt w) b /\
     get (sqr w) b == f * (f * get (wt w) b))%Q.

(** One example of label -1 and unit weight in TRUE. *)
Definition w_negative_label {T} `{Scalar T} : W_regress T :=
  add (mkLabel lit_m1_0) TRUE lit_1_0 unit_weights 1 W_zero.

(** * Properties *)

(** ** Comparison of IEEE values *)

Lemma SFcompare_antisym (x y : spec_float) :
  SFcompare y x = option_map CompOpp (SFcompare x y).
Proof.
  destruct x as [sx | sx | | sx mx ex], y as [sy | sy | | sy my ey]; simpl;
    try reflexivity;
    try (destruct sx; reflexivity); try (destruct sy; reflexivity);
    try (destruct sx, sy; reflexivity).
  destruct sx, sy; simpl; try reflexivity;
    rewrite (Z.compare_antisym ex ey); destruct (ex ?= ey)%Z; simpl;
    try reflexivity;
    pose proof (Pos.compare_cont_antisym mx my Eq) as P; simpl in P;
    rewrite <- P; try rewrite CompOpp_involutive; reflexivity.
Qed.

Lemma SFcompare_refl (x : spec_float) :
  x <> S754_nan -> SFcompare x x = Some Eq.
Proof.
  destruct x as [s | s | | s m e]; simpl; intros Hx;
    try reflexivity; try (destruct s; reflexivity); try congruence.
  destruct s; rewrite Z.compare_refl, Pos.compare_cont_refl; reflexivity.
Qed.

Lemma SFcompare_None (x y : spec_float) :
  SFcompare x y = None -> x = S754_nan \/ y = S754_nan.
Proof.
  destruct x as [sx | sx | | sx mx ex], y as [sy | sy | | sy my ey]; simpl;
    auto; discriminate.
Qed.

Lemma SFeqb_self_not_nan (x : spec_float) :
  SFeqb x x = true -> x <> S754_nan.
Proof. intros E ->. discriminate E. Qed.

#[global] Instance IEEE_order : ScalarOrder float.
Proof.
  split; unfold ordered; cbn [less less_equal equal_to IEEE.scalar].
  - intros a b. rewrite ltb_spec, leb_spec. unfold SFltb, SFleb.
    destruct (SFcompare (Prim2SF a) (Prim2SF b)) as [[ | | ] | ]; congruence.
  - intros a b. rewrite ltb_spec, leb_spec. unfold SFltb, SFleb.
    rewrite (SFcompare_antisym (Prim2SF a) (Prim2SF b)).
    destruct (SFcompare (Prim2SF a) (Prim2SF b)) as [[ | | ] | ]; simpl; congruence.
  - intros a b. rewrite !eqb_spec, ltb_spec, leb_spec. unfold SFltb, SFleb.
    intros Ha Hb. apply SFeqb_self_not_nan in Ha, Hb.
    rewrite (SFcompare_antisym (Prim2SF a) (Prim2SF b)).
    destruct (SFcompare (Prim2SF a) (Prim2SF b)) as [[ | | ] | ] eqn:E; simpl;
      try congruence.
    apply SFcompare_None in E. tauto.
  - intros a. rewrite eqb_spec, leb_spec. unfold SFleb. intros Ha.
    apply SFeqb_self_not_nan in Ha. rewrite SFcompare_refl by assumption.
    reflexivity.
  - reflexivity.
  - reflexivity.
  - reflexivity.
Qed.

#[global] Instance Exact_order : ScalarOrder Q.
Proof.
  split; unfold ordered; cbn [less less_equal equal_to Exact.scalar].
  - intros a b Hab. apply negb_true_iff in Hab. apply Qle_bool_iff.
    destruct (Qlt_le_dec a b) as [L | L].
    + apply Qlt_le_weak, L.
    + apply Qle_bool_iff in L. congruence.
  - intros a b Hab. apply negb_false_iff. exact Hab.
  - intros a b _ _ Hab. apply negb_false_iff in Hab. exact Hab.
  - intros a _. apply Qle_bool_iff, Qle_refl.
  - reflexivity.
  - reflexivity.
  - reflexivity.
Qed.

(** ** Arrays and field updates *)

Section ArrayFacts.
Context {T : Type}.

Lemma get_set_same (a : array3 T) (b : Bucket) (v : T) : get (set a b v) b = v.
Proof. destruct b; reflexivity. Qed.

Lemma get_set_other (a : array3 T) (b b' : Bucket) (v : T) :
  b' <> b -> get (set a b v) b' = get a b'.
Proof. destruct b, b'; intros Hne; try reflexivity; congruence. Qed.

Lemma set_set (a : array3 T) (b : Bucket) (u v : T) :
  set (set a b u) b v = set a b v.
Proof. destruct b; reflexivity. Qed.

End ArrayFacts.

(** ** The accumulator *)

Section Accumulator.
Context {T : Type} {ST : Scalar T}.

Lemma std_max_zero_twice (x : T) :
  std_max (std_max x lit_0_0) lit_0_0 = std_max x lit_0_0.
Proof.
  unfold std_max. destruct (less x lit_0_0) eqn:E.
  - destruct (less lit_0_0 lit_0_0); reflexivity.
  - rewrite E. reflexivity.
Qed.

Lemma clip_fields (b : Bucket) (w : W_regress T) :
  clip b w =
  mkW (set (dist w) b (std_max (get (dist w) b) lit_0_0))
      (set (sqr w) b (std_max (get (sqr w) b) lit_0_0))
      (set (wt w) b (std_max (get (wt w) b) lit_0_0)).
Proof. reflexivity. Qed.

Lemma clip_clip (b : Bucket) (w : W_regress T) : clip b (clip b w) = clip b w.
Proof.
  rewrite (clip_fields b (clip b w)), (clip_fields b w). cbn [dist sqr wt].
  rewrite !get_set_same, !set_set, !std_max_zero_twice. reflexivity.
Qed.

Lemma std_max_zero_bounds {OT : ScalarOrder T} (x : T) :
  ordered x = true ->
  less_equal x (std_max x lit_0_0) = true /\
  less_equal lit_0_0 (std_max x lit_0_0) = true.
Proof.
  intros Hx. unfold std_max. destruct (less x lit_0_0) eqn:E.
  - split.
    + apply less_less_equal, E.
    + apply less_equal_refl, zero_ordered.
  - split.
    + apply less_equal_refl, Hx.
    + apply not_less_less_equal; [exact Hx | exact zero_ordered | exact E].
Qed.

End Accumulator.

(** ** Clipping *)

(** C6 (as amended).  For every scalar type with the shared order facts,
    every accumulator state and every bucket [b]: clipping [b] twice
    gives exactly the state clipping it once gives; [clip(b)] never
    decreases any of [dist[b]], [sqr[b]], [wt[b]]: a field that compares
    below [0.0] is set to [0.0] and every other field is left exactly as
    it was; and after [clip(b)] each of the three fields that is not a
    NaN is at least [0.0] and at least what it was. *)
Theorem clip_idempotent_raises_to_zero
    {T : Type} {ST : Scalar T} {OT : ScalarOrder T}
    (w : W_regress T) (b : Bucket) :
  clip b (clip b w) = clip b w /\
  ((less (get (dist w) b) lit_0_0 = true ->
      get (dist (clip b w)) b = lit_0_0) /\
   (less (get (dist w) b) lit_0_0 = false ->
      get (dist (clip b w)) b = get (dist w) b) /\
   (ordered (get (dist w) b) = true ->
      less_equal (get (dist w) b) (get (dist (clip b w)) b) = true /\
      less_equal lit_0_0 (get (dist (clip b w)) b) = true)) /\
  ((less (get (sqr w) b) lit_0_0 = true ->
      get (sqr (clip b w)) b = lit_0_0) /\
   (less (get (sqr w) b) lit_0_0 = false ->
      get (sqr (clip b w)) b = get (sqr w) b) /\
   (ordered (get (sqr w) b) = true ->
      less_equal (get (sqr w) b) (get (sqr (clip b w)) b) = true /\
      less_equal lit_0_0 (get (sqr (clip b w)) b) = true)) /\
  ((less (get (wt w) b) lit_0_0 = true ->
      get (wt (clip b w)) b = lit_0_0) /\
   (less (get (wt w) b) lit_0_0 = false ->
      get (wt (clip b w)) b = get (wt w) b) /\
   (ordered (get (wt w) b) = true ->
      less_equal (get (wt w) b) (get (wt (clip b w)) b) = true /\
      less_equal lit_0_0 (get (wt (clip b w)) b) = true)).
Proof.
  assert (Hfield : forall x : T,
            (less x lit_0_0 = true -> std_max x lit_0_0 = lit_0_0) /\
            (less x lit_0_0 = false -> std_max x lit_0_0 = x) /\
            (ordered x = true ->
               less_equal x (std_max x lit_0_0) = true /\
               less_equal lit_0_0 (std_max x lit_0_0) = true)).
  { intros x. split; [ | split].
    - intros E. unfold std_max. rewrite E. reflexivity.
    - intros E. unfold std_max. rewrite E. reflexivity.
    - apply std_max_zero_bounds. }
  split; [apply clip_clip | ].
  rewrite clip_fields. cbn [dist sqr wt]. rewrite !get_set_same.
  split; [apply Hfield | split; apply Hfield].
Qed.

(** On IEEE doubles, in [w_negative]: bucket FALSE holds -1.0 in each
    field, which [clip(FALSE)] sets to 0.0; bucket TRUE holds 1.0 in each
    field, which [clip(TRUE)] leaves as it is. *)
Lemma clip_idempotent_raises_to_zero_witness :
  clip FALSE (clip FALSE (@w_negative float _)) = clip FALSE w_negative /\
  (less (get (dist (@w_negative float _)) FALSE) lit_0_0 = true /\
   get (dist (clip FALSE (@w_negative float _))) FALSE = lit_0_0) /\
  (less (get (wt (@w_negative float _)) FALSE) lit_0_0 = true /\
   get (wt (clip FALSE (@w_negative float _))) FALSE = lit_0_0) /\
  (ordered (get (sqr (@w_negative float _)) FALSE) = true /\
   less_equal (get (sqr (@w_negative float _)) FALSE)
              (get (sqr (clip FALSE w_negative)) FALSE) = true /\
   less_equal lit_0_0 (get (sqr (clip FALSE (@w_negative float _))) FALSE)
     = true).
Proof.
  destruct (@clip_idempotent_raises_to_zero float _ IEEE_order w_negative FALSE)
    as [Hidem [[Hdist _] [[_ [_ Hsqr]] [Hwt _]]]].
  assert (Hd : less (get (dist (@w_negative float _)) FALSE) lit_0_0 = true)
    by (vm_compute; reflexivity).
  assert (Hw : less (get (wt (@w_negative float _)) FALSE) lit_0_0 = true)
    by (vm_compute; reflexivity).
  assert (Hs : ordered (get (sqr (@w_negative float _)) FALSE) = true)
    by (vm_compute; reflexivity).
  split; [exact Hidem | ].
  split; [split; [exact Hd | exact (Hdist Hd)] | ].
  split; [split; [exact Hw | exact (Hwt Hw)] | ].
  split; [exact Hs | exact (Hsqr Hs)].
Defined.

(** C6, the claim as written fails: [clip] does increase a field.  In
    [w_negative] the field [dist[FALSE]] is -1.0, and after [clip(FALSE)]
    it is 0.0, which is greater, on IEEE doubles and in exact arithmetic
    alike. *)
Lemma clip_increases_negative_field :
  (get (dist (@w_negative float _)) FALSE = (-1)%float /\
   get (dist (clip FALSE (@w_negative float _))) FALSE = 0%float /\
   less_equal (get (dist (clip FALSE (@w_negative float _))) FALSE)
              (get (dist w_negative) FALSE) = false) /\
  (get (dist (@w_negative Q _)) FALSE == -1 /\
   get (dist (clip FALSE (@w_negative Q _))) FALSE == 0 /\
   ~ get (dist (clip FALSE (@w_negative Q _))) FALSE
       <= get (dist w_negative) FALSE)%Q.
Proof.
  split.
  - repeat split; vm_compute; reflexivity.
  - repeat split; try (vm_compute; reflexivity).
    vm_compute. intros Hle. apply Hle. reflexivity.
Qed.

(** On IEEE doubles a NaN field is left a NaN by [clip]: [NaN < 0.0] is
    false, so [std::max(NaN, 0.0)] is its first argument. *)
Lemma clip_keeps_nan :
  std_max PrimFloat.nan lit_0_0 = PrimFloat.nan /\
  less_equal lit_0_0 (std_max PrimFloat.nan lit_0_0) = false.
Proof. split; vm_compute; reflexivity. Qed.

(** In exact arithmetic no field is set apart: after [clip(b)] the three
    fields of [b] are [>= 0] and none is below what it was. *)
Corollary clip_exact (w : W_regress Q) (b : Bucket) :
  (0 <= get (dist (clip b w)) b /\ get (dist w) b <= get (dist (clip b w)) b)%Q /\
  (0 <= get (sqr (clip b w)) b /\ get (sqr w) b <= get (sqr (clip b w)) b)%Q /\
  (0 <= get (wt (clip b w)) b /\ get (wt w) b <= get (wt (clip b w)) b)%Q.
Proof.
  rewrite clip_fields. cbn [dist sqr wt]. rewrite !get_set_same.
  assert (Hb : forall x : Q, (0 <= std_max x lit_0_0 /\ x <= std_max x lit_0_0)%Q).
  { intros x. destruct (@std_max_zero_bounds Q _ _ x) as [Hx H0].
    - apply Qeq_bool_refl.
    - split; apply Qle_bool_iff; assumption. }
  repeat split; apply Hb.
Qed.

(** C10.  [clip(b)] leaves every field of the other two buckets exactly
    as it was. *)
Theorem clip_frame {T : Type} {ST : Scalar T}
    (w : W_regress T) (b b' : Bucket) :
  b' <> b ->
  get (dist (clip b w)) b' = get (dist w) b' /\
  get (sqr (clip b w)) b' = get (sqr w) b' /\
  get (wt (clip b w)) b' = get (wt w) b'.
Proof.
  intros Hne. rewrite clip_fields. cbn [dist sqr wt].
  rewrite !get_set_other by assumption. repeat split.
Qed.

(** Clipping MISSING in [w_negative] leaves bucket FALSE as it was. *)
Lemma clip_frame_witness :
  FALSE <> MISSING /\
  (get (dist (clip MISSING (@w_negative float _))) FALSE
     = get (dist w_negative) FALSE /\
   get (sqr (clip MISSING (@w_negative float _))) FALSE
     = get (sqr w_negative) FALSE /\
   get (wt (clip MISSING (@w_negative float _))) FALSE
     = get (wt w_negative) FALSE).
Proof.
  split; [discriminate | ].
  apply (@clip_frame float _ w_negative MISSING FALSE). discriminate.
Defined.

(** ** Construction and the bulk transfer *)

Section Construction.
Context {T : Type} {ST : Scalar T}.

Lemma W_zero_fields :
  @W_zero T _ = mkW (Array3 lit_0_0 lit_0_0 lit_0_0)
                    (Array3 lit_0_0 lit_0_0 lit_0_0)
                    (Array3 lit_0_0 lit_0_0 lit_0_0).
Proof. reflexivity. Qed.

Lemma W_zero_get (b : Bucket) :
  get (dist (@W_zero T _)) b = lit_0_0 /\
  get (sqr (@W_zero T _)) b = lit_0_0 /\
  get (wt (@W_zero T _)) b = lit_0_0.
Proof. rewrite W_zero_fields. destruct b; repeat split. Qed.

End Construction.

(** C7.  Constructing the accumulator throws the exception of
    [InvalidProblem] exactly when [nl != 1], so it does for [nl = 2];
    for [nl = 1] it returns an accumulator whose nine fields are [0.0]. *)
Theorem construction_fails_iff_not_one {T : Type} {ST : Scalar T} :
  (forall numLabels : N,
     @W_regress_new T _ numLabels = Throws InvalidProblem <-> numLabels <> 1%N) /\
  (forall numLabels : N,
     (exists e, @W_regress_new T _ numLabels = Throws e) <-> numLabels <> 1%N) /\
  @W_regress_new T _ 2 = Throws InvalidProblem /\
  (exists w : W_regress T,
     W_regress_new 1 = Returns w /\
     forall b : Bucket,
       get (dist w) b = lit_0_0 /\ get (sqr w) b = lit_0_0 /\
       get (wt w) b = lit_0_0).
Proof.
  assert (Hcases : forall numLabels : N,
            (numLabels = 1%N /\
             @W_regress_new T _ numLabels = Returns W_zero) \/
            (numLabels <> 1%N /\
             @W_regress_new T _ numLabels = Throws InvalidProblem)).
  { intros numLabels. unfold W_regress_new.
    destruct (N.eqb_spec numLabels 1) as [E | E].
    - left. split; [exact E | reflexivity].
    - right. split; [exact E | reflexivity]. }
  repeat split; try intros numLabels.
  - intros Hthrow E.
    destruct (Hcases numLabels) as [[_ R] | [Hne _]]; [ | tauto].
    rewrite R in Hthrow. discriminate Hthrow.
  - intros Hne.
    destruct (Hcases numLabels) as [[E _] | [_ R]]; [tauto | exact R].
  - intros [e Hthrow] E.
    destruct (Hcases numLabels) as [[_ R] | [Hne _]]; [ | tauto].
    rewrite R in Hthrow. discriminate Hthrow.
  - intros Hne. exists InvalidProblem.
    destruct (Hcases numLabels) as [[E _] | [_ R]]; [tauto | exact R].
  - exists W_zero. split; [reflexivity | apply W_zero_get].
Qed.

(** C8.  For every pair of buckets and every other accumulator, the
    accumulator-to-accumulator [transfer] throws the exception of
    [NotImplemented], and the receiving accumulator is as it was. *)
Theorem bulk_transfer_not_implemented {T : Type} {ST : Scalar T}
    (from to : Bucket) (other self : W_regress T) :
  fst (transfer_W from to other self) = Throws NotImplemented /\
  snd (transfer_W from to other self) = self.
Proof. split; reflexivity. Qed.

(** ** Only the first weight of the slice is read *)

(** C9.  Two calls of [add], or of [transfer], on the same state and
    with the same label, buckets and weight, whose weight slices agree
    at the place pointed to, leave the same state, whatever the rest of
    the slices and the [advance] arguments are. *)
Theorem add_transfer_read_first_weight_only {T : Type} {ST : Scalar T}
    (correct_label : Label T) (from to : Bucket) (weight : T)
    (it1 it2 : Iterator T) (advance1 advance2 : Z) (w : W_regress T) :
  it1 0%nat = it2 0%nat ->
  add correct_label to weight it1 advance1 w
    = add correct_label to weight it2 advance2 w /\
  transfer correct_label from to weight it1 advance1 w
    = transfer correct_label from to weight it2 advance2 w.
Proof.
  intros H0. unfold add, transfer, deref. rewrite H0. split; reflexivity.
Qed.

(** Slices [1, 2, 2, ...] and [1, 3, 3, ...], strides 1 and 4. *)
Lemma add_transfer_read_first_weight_only_witness :
  weights_then 1%float 2%float 0%nat = weights_then 1%float 3%float 0%nat /\
  (add (mkLabel 1%float) TRUE 1%float (weights_then 1%float 2%float) 1 W_zero
     = add (mkLabel 1%float) TRUE 1%float (weights_then 1%float 3%float) 4 W_zero /\
   transfer (mkLabel 1%float) FALSE TRUE 1%float
            (weights_then 1%float 2%float) 1 W_zero
     = transfer (mkLabel 1%float) FALSE TRUE 1%float
                (weights_then 1%float 3%float) 4 W_zero).
Proof.
  split; [reflexivity | ].
  apply (@add_transfer_read_first_weight_only float _); reflexivity.
Defined.

(** The slices of the witness do differ after the first place. *)
Example weights_then_differ :
  weights_then 1%float 2%float 1%nat = 2%float /\
  weights_then 1%float 3%float 1%nat = 3%float.
Proof. split; reflexivity. Qed.

(** ** The leaf predictor *)

Section LeafPredictor.
Context {T : Type} {ST : Scalar T}.

Lemma C_regress_call_rows (w : W_regress T) (epsilon : T) (optional : bool) :
  C_regress_call w epsilon optional =
  [[leaf_value w FALSE]; [leaf_value w TRUE]; [leaf_value w MISSING]].
Proof.
  unfold C_regress_call, leaf_value, sample_mean.
  cbn [fold_left repeat]. destruct (totals w) as [total total_wt].
  cbn [fst snd].
  destruct (greater (get (wt w) FALSE) lit_1e_20),
           (greater (get (wt w) TRUE) lit_1e_20),
           (greater (get (wt w) MISSING) lit_1e_20); reflexivity.
Qed.

Lemma prediction_row (w : W_regress T) (epsilon : T) (optional : bool)
    (i : Bucket) :
  prediction (C_regress_call w epsilon optional) i = [leaf_value w i].
Proof. rewrite C_regress_call_rows. destruct i; reflexivity. Qed.

Lemma sample_mean_sums (w : W_regress T) :
  sample_mean w =
  divide
    (plus (plus (plus lit_0_0 (get (dist w) FALSE)) (get (dist w) TRUE))
          (get (dist w) MISSING))
    (plus (plus (plus lit_0_0 (get (wt w) FALSE)) (get (wt w) TRUE))
          (get (wt w) MISSING)).
Proof. reflexivity. Qed.

Lemma leaf_value_fallback {OT : ScalarOrder T} (w : W_regress T) (i : Bucket) :
  less_equal (get (wt w) i) lit_1e_20 = true ->
  leaf_value w i = to_float (sample_mean w).
Proof.
  intros Hle. unfold leaf_value, greater.
  rewrite (less_equal_not_less _ _ Hle). reflexivity.
Qed.

End LeafPredictor.

(** C4.  The leaf predictor returns three rows of one value each, one
    row per bucket.  The value of a bucket [i] with [wt[i] > 1e-20] is
    [dist[i] / wt[i]]; the value of a bucket with [wt[i] <= 1e-20] is the
    mean over the three buckets, [total / total_wt], with [total] the sum
    of the [dist[j]] and [total_wt] the sum of the [wt[j]] (each value
    converted to [float], as the rows hold floats).  In particular the
    TRUE row holds that mean when [wt[TRUE]] is [0.0]. *)
Theorem leaf_prediction_with_fallback
    {T : Type} {ST : Scalar T} {OT : ScalarOrder T}
    (w : W_regress T) (epsilon : T) (optional : bool) :
  let result := C_regress_call w epsilon optional in
  List.length result = 3%nat /\
  (forall i : Bucket, List.length (prediction result i) = 1%nat) /\
  (forall i : Bucket,
     greater (get (wt w) i) lit_1e_20 = true ->
     prediction result i = [to_float (divide (get (dist w) i) (get (wt w) i))]) /\
  (forall i : Bucket,
     less_equal (get (wt w) i) lit_1e_20 = true ->
     prediction result i = [to_float (sample_mean w)]) /\
  (get (wt w) TRUE = lit_0_0 ->
     prediction result TRUE = [to_float (sample_mean w)]) /\
  sample_mean w =
    divide
      (plus (plus (plus lit_0_0 (get (dist w) FALSE)) (get (dist w) TRUE))
            (get (dist w) MISSING))
      (plus (plus (plus lit_0_0 (get (wt w) FALSE)) (get (wt w) TRUE))
            (get (wt w) MISSING)).
Proof.
  cbv zeta. repeat split.
  - rewrite C_regress_call_rows. reflexivity.
  - intros i. rewrite prediction_row. reflexivity.
  - intros i Hgt. rewrite prediction_row. unfold leaf_value.
    rewrite Hgt. reflexivity.
  - intros i Hle. rewrite prediction_row, leaf_value_fallback by assumption.
    reflexivity.
  - intros H0. rewrite prediction_row, leaf_value_fallback; [reflexivity | ].
    rewrite H0. apply zero_less_equal_1e_20.
Qed.

(** On IEEE doubles, for [w_true_empty] (weight 3 and label sum 3 in
    FALSE, weight 1 and label sum -1 in MISSING, nothing in TRUE): the
    FALSE row holds [3/3], the TRUE row the mean over the three buckets. *)
Lemma leaf_prediction_with_fallback_witness :
  prediction (C_regress_call (@w_true_empty float _) 0%float false) FALSE
    = [to_float (divide (get (dist (@w_true_empty float _)) FALSE)
                        (get (wt (@w_true_empty float _)) FALSE))] /\
  prediction (C_regress_call (@w_true_empty float _) 0%float false) TRUE
    = [to_float (sample_mean (@w_true_empty float _))].
Proof.
  destruct (@leaf_prediction_with_fallback float _ IEEE_order
              w_true_empty 0%float false) as [_ [_ [Hgt [_ [Hzero _]]]]].
  split.
  - apply Hgt. vm_compute. reflexivity.
  - apply Hzero. vm_compute. reflexivity.
Defined.

(** The values of that example: the mean is [(3 - 1) / (3 + 1)]. *)
Example w_true_empty_prediction :
  get (wt (@w_true_empty float _)) TRUE = 0%float /\
  get (wt (@w_true_empty float _)) FALSE = 3%float /\
  get (wt (@w_true_empty float _)) MISSING = 1%float /\
  sample_mean (@w_true_empty float _) = 0.5%float /\
  C_regress_call (@w_true_empty float _) 0%float false
    = [[1%float]; [0.5%float]; [(-1)%float]].
Proof. repeat split; vm_compute; reflexivity. Qed.

(** ** No weight in any bucket *)

Section NoWeight.
Context {T : Type} {ST : Scalar T} {OT : ScalarOrder T}.

Lemma totals_W_zero : totals (@W_zero T _) = (lit_0_0, lit_0_0).
Proof.
  rewrite W_zero_fields. unfold totals. cbn [fold_left get dist wt elt0 elt1 elt2].
  rewrite !plus_zero_zero. reflexivity.
Qed.

Lemma all_rows_fallback (w : W_regress T) (epsilon : T) (optional : bool) :
  (forall i : Bucket, less_equal (get (wt w) i) lit_1e_20 = true) ->
  C_regress_call w epsilon optional = repeat [to_float (sample_mean w)] 3.
Proof.
  intros Hle. rewrite C_regress_call_rows.
  rewrite !leaf_value_fallback by apply Hle. reflexivity.
Qed.

End NoWeight.

Section DivisionByZero.

Lemma SFeqb_zero (y : spec_float) :
  SFeqb y (S754_zero false) = true -> exists s, y = S754_zero s.
Proof.
  destruct y as [s | s | | s m e]; unfold SFeqb; simpl; intros E.
  - exists s. reflexivity.
  - destruct s; discriminate E.
  - discriminate E.
  - destruct s; discriminate E.
Qed.

Lemma SFdiv_by_zero (x : spec_float) (s : bool) :
  match SF64div x (S754_zero s) with
  | S754_infinity _ | S754_nan => True
  | _ => False
  end.
Proof. destruct x as [sx | sx | | sx mx ex]; exact I. Qed.

(** On IEEE doubles a quotient whose divisor compares equal to [0.0] is
    a NaN or an infinity, and stays one when stored as a [float]. *)
Lemma divide_by_zero_not_finite (x y : float) :
  equal_to y lit_0_0 = true ->
  finite_double (to_float (divide x y)) = false.
Proof.
  cbn [equal_to divide to_float lit_0_0 IEEE.scalar]. intros E.
  rewrite eqb_spec in E.
  change (Prim2SF 0%float) with (S754_zero false) in E.
  destruct (SFeqb_zero _ E) as [s Hy].
  pose proof (SFdiv_by_zero (Prim2SF x) s) as Hdiv.
  rewrite <- Hy, <- div_spec in Hdiv.
  unfold finite_double, IEEE.to_binary32.
  destruct (Prim2SF (x / y)) as [sz | sz | | sz mz ez] eqn:Hq;
    try contradiction.
  - rewrite Hq. reflexivity.
  - rewrite Hq. reflexivity.
Qed.

End DivisionByZero.

(** C5 (as amended).  When every bucket's weight is [<= 1e-20], each of
    the three rows of the leaf predictor holds the fallback quotient
    [total / total_wt], computed without a guard on [total_wt] and
    without an error.  When the weights moreover sum to [total_wt = 0]
    this is a division by zero, and on IEEE doubles no row holds a finite
    prediction: each holds a NaN or an infinity.  For the all-zero
    accumulator [total] and [total_wt] are both [0.0], the quotient is
    [0.0 / 0.0], and every row holds a NaN. *)
Theorem zero_total_weight_prediction :
  (forall (T : Type) (ST : Scalar T) (OT : ScalarOrder T)
          (w : W_regress T) (epsilon : T) (optional : bool),
     (forall i : Bucket, less_equal (get (wt w) i) lit_1e_20 = true) ->
     C_regress_call w epsilon optional
       = repeat [to_float (divide (fst (totals w)) (snd (totals w)))] 3) /\
  (forall (w : W_regress float) (epsilon : float) (optional : bool),
     (forall i : Bucket, less_equal (get (wt w) i) lit_1e_20 = true) ->
     equal_to (snd (totals w)) lit_0_0 = true ->
     C_regress_call w epsilon optional
       = repeat [to_float (divide (fst (totals w)) (snd (totals w)))] 3 /\
     finite_double (to_float (divide (fst (totals w)) (snd (totals w))))
       = false) /\
  (forall (T : Type) (ST : Scalar T) (OT : ScalarOrder T)
          (epsilon : T) (optional : bool),
     totals (@W_zero T _) = (lit_0_0, lit_0_0) /\
     C_regress_call (@W_zero T _) epsilon optional
       = repeat [to_float (divide lit_0_0 lit_0_0)] 3) /\
  (forall (epsilon : float) (optional : bool),
     C_regress_call (@W_zero float _) epsilon optional
       = [[PrimFloat.nan]; [PrimFloat.nan]; [PrimFloat.nan]]) /\
  ordered PrimFloat.nan = false.
Proof.
  split; [ | split; [ | split; [ | split]]].
  - intros T ST OT w epsilon optional Hle. apply all_rows_fallback, Hle.
  - intros w epsilon optional Hle Hzero. split.
    + apply (all_rows_fallback (OT := IEEE_order)), Hle.
    + apply divide_by_zero_not_finite, Hzero.
  - intros T ST OT epsilon optional. split; [apply totals_W_zero | ].
    rewrite all_rows_fallback.
    + unfold sample_mean. rewrite totals_W_zero. reflexivity.
    + intros i. destruct (@W_zero_get T _ i) as [_ [_ Hwt]]. rewrite Hwt.
      apply zero_less_equal_1e_20.
  - intros epsilon optional. rewrite C_regress_call_rows.
    vm_compute. reflexivity.
  - vm_compute. reflexivity.
Qed.

(** On IEEE doubles, in [w_unit_over_zero] the three weights are 0.0 and
    sum to 0.0, the label sum is 1.0: the three rows hold the quotient
    [1.0 / 0.0], which is not a finite number. *)
Lemma zero_total_weight_prediction_witness :
  ((forall i : Bucket,
      less_equal (get (wt (@w_unit_over_zero float _)) i) lit_1e_20 = true) /\
   equal_to (snd (totals (@w_unit_over_zero float _))) lit_0_0 = true) /\
  (C_regress_call (@w_unit_over_zero float _) 0%float false
     = repeat [to_float (divide (fst (totals (@w_unit_over_zero float _)))
                                (snd (totals (@w_unit_over_zero float _))))] 3 /\
   finite_double
     (to_float (divide (fst (totals (@w_unit_over_zero float _)))
                       (snd (totals (@w_unit_over_zero float _))))) = false).
Proof.
  assert (Hle : forall i : Bucket,
            less_equal (get (wt (@w_unit_over_zero float _)) i) lit_1e_20
            = true).
  { intros i. destruct i; vm_compute; reflexivity. }
  assert (Hzero : equal_to (snd (totals (@w_unit_over_zero float _))) lit_0_0
                  = true) by (vm_compute; reflexivity).
  split; [split; [exact Hle | exact Hzero] | ].
  exact (proj1 (proj2 zero_total_weight_prediction)
           w_unit_over_zero 0%float false Hle Hzero).
Defined.

(** The rows of that example hold the infinity. *)
Example w_unit_over_zero_prediction :
  C_regress_call (@w_unit_over_zero float _) 0%float false
    = [[infinity]; [infinity]; [infinity]].
Proof. vm_compute. reflexivity. Qed.

(** C5, the claim as written fails.  Weights that are all [<= 1e-20]
    need not sum to zero: in [w_tiny] the weights are [1e-20, 0, 0], each
    [<= 1e-20], yet [total_wt] is [1e-20], not [0.0], the fallback
    quotient is [1e-20 / 1e-20], and every row holds the finite value 1,
    on IEEE doubles and in exact arithmetic alike.  And weights that do
    sum to zero need not give a zero-by-zero division: in
    [w_unit_over_zero] the weights are all 0.0 and [total] is 1.0, not
    0.0. *)
Lemma tiny_weights_finite_prediction :
  (less_equal (get (wt (@w_tiny float _)) FALSE) lit_1e_20 = true /\
   less_equal (get (wt (@w_tiny float _)) TRUE) lit_1e_20 = true /\
   less_equal (get (wt (@w_tiny float _)) MISSING) lit_1e_20 = true /\
   totals (@w_tiny float _) = (lit_1e_20, lit_1e_20) /\
   equal_to (snd (totals (@w_tiny float _))) lit_0_0 = false /\
   C_regress_call (@w_tiny float _) 0%float false
     = [[1%float]; [1%float]; [1%float]] /\
   finite_double 1%float = true) /\
  (less_equal (get (wt (@w_tiny Q _)) FALSE) lit_1e_20 = true /\
   less_equal (get (wt (@w_tiny Q _)) TRUE) lit_1e_20 = true /\
   less_equal (get (wt (@w_tiny Q _)) MISSING) lit_1e_20 = true /\
   ~ (snd (totals (@w_tiny Q _)) == 0)%Q /\
   Forall2 (Forall2 Qeq) (C_regress_call (@w_tiny Q _) 0%Q false)
           [[1%Q]; [1%Q]; [1%Q]]) /\
  (less_equal (get (wt (@w_unit_over_zero float _)) FALSE) lit_1e_20 = true /\
   less_equal (get (wt (@w_unit_over_zero float _)) TRUE) lit_1e_20 = true /\
   less_equal (get (wt (@w_unit_over_zero float _)) MISSING) lit_1e_20 = true /\
   totals (@w_unit_over_zero float _) = (1%float, 0%float) /\
   equal_to (fst (totals (@w_unit_over_zero float _))) lit_0_0 = false).
Proof.
  split; [ | split].
  - repeat split; vm_compute; reflexivity.
  - repeat split; try (vm_compute; reflexivity).
    + vm_compute. discriminate.
    + rewrite C_regress_call_rows.
      repeat (constructor; try (vm_compute; reflexivity)).
  - repeat split; vm_compute; reflexivity.
Qed.

(** ** Conservation, in exact arithmetic *)

Section Conservation.
Open Scope Q_scope.

Lemma same_sums_refl (w : W_regress Q) : same_sums w w.
Proof. repeat split; reflexivity. Qed.

Lemma same_sums_trans (w1 w2 w3 : W_regress Q) :
  same_sums w1 w2 -> same_sums w2 w3 -> same_sums w1 w3.
Proof.
  intros [Hd [Hs Hw]] [Hd' [Hs' Hw']].
  repeat split; etransitivity; eassumption.
Qed.

(** What [add] does to the three sums: each grows by the amount added. *)
Lemma add_sums (l : Label Q) (b : Bucket) (weight : Q) (it : Iterator Q)
    (adv : Z) (w : W_regress Q) :
  sum3 (dist (add l b weight it adv w))
    == sum3 (dist w) + value l * (deref it * weight) /\
  sum3 (sqr (add l b weight it adv w))
    == sum3 (sqr w) + value l * (value l * (deref it * weight)) /\
  sum3 (wt (add l b weight it adv w))
    == sum3 (wt w) + deref it * weight.
Proof.
  destruct w as [[d0 d1 d2] [s0 s1 s2] [w0 w1 w2]].
  destruct b; cbn; repeat split; ring.
Qed.

Lemma add_same_sums (l : Label Q) (b : Bucket) (weight : Q) (it : Iterator Q)
    (adv : Z) (w1 w2 : W_regress Q) :
  same_sums w1 w2 ->
  same_sums (add l b weight it adv w1) (add l b weight it adv w2).
Proof.
  intros [Hd [Hs Hw]].
  destruct (add_sums l b weight it adv w1) as [Hd1 [Hs1 Hw1]].
  destruct (add_sums l b weight it adv w2) as [Hd2 [Hs2 Hw2]].
  repeat split.
  - rewrite Hd1, Hd2, Hd. reflexivity.
  - rewrite Hs1, Hs2, Hs. reflexivity.
  - rewrite Hw1, Hw2, Hw. reflexivity.
Qed.

Lemma transfer_same_sums (l : Label Q) (from to : Bucket) (weight : Q)
    (it : Iterator Q) (adv : Z) (w : W_regress Q) :
  same_sums (transfer l from to weight it adv w) w.
Proof.
  destruct w as [[d0 d1 d2] [s0 s1 s2] [w0 w1 w2]].
  destruct from, to; cbn; repeat split; cbn; ring.
Qed.

Lemma run_same_sums (cs : list (call Q)) :
  forall w1 w2 : W_regress Q,
    same_sums w1 w2 -> same_sums (run cs w1) (run (adds_only cs) w2).
Proof.
  induction cs as [ | c cs IH]; intros w1 w2 Hsame.
  - exact Hsame.
  - destruct c as [l b weight it adv | l from to weight it adv].
    + change (same_sums (run cs (add l b weight it adv w1))
                        (run (adds_only cs) (add l b weight it adv w2))).
      apply IH, add_same_sums, Hsame.
    + change (same_sums (run cs (transfer l from to weight it adv w1))
                        (run (adds_only cs) w2)).
      apply IH. eapply same_sums_trans; [apply transfer_same_sums | exact Hsame].
Qed.

End Conservation.

(** C2.  In exact arithmetic, a call of [transfer] leaves the sum over
    the three buckets of each of [dist], [sqr] and [wt] as it was; and
    after every sequence of [add] and [transfer] calls each of the three
    sums is what the [add] calls of the sequence alone give. *)
Theorem transfer_conserves_bucket_sums :
  (forall (correct_label : Label Q) (from to : Bucket) (weight : Q)
          (exampleWeights : Iterator Q) (stride : Z) (w : W_regress Q),
     (sum3 (dist (transfer correct_label from to weight exampleWeights stride w))
        == sum3 (dist w))%Q /\
     (sum3 (sqr (transfer correct_label from to weight exampleWeights stride w))
        == sum3 (sqr w))%Q /\
     (sum3 (wt (transfer correct_label from to weight exampleWeights stride w))
        == sum3 (wt w))%Q) /\
  (forall (calls : list (call Q)) (w : W_regress Q),
     (sum3 (dist (run calls w)) == sum3 (dist (run (adds_only calls) w)))%Q /\
     (sum3 (sqr (run calls w)) == sum3 (sqr (run (adds_only calls) w)))%Q /\
     (sum3 (wt (run calls w)) == sum3 (wt (run (adds_only calls) w)))%Q).
Proof.
  split.
  - intros l from to weight it adv w. apply transfer_same_sums.
  - intros calls w. apply run_same_sums, same_sums_refl.
Qed.

(** On IEEE doubles the sums are conserved only up to rounding: moving
    an example of weight [1e20] out of a bucket that holds label sum 1
    loses the 1. *)
Example transfer_rounds_on_doubles :
  let w := add (mkLabel 1%float) FALSE 1%float unit_weights 1 W_zero in
  let w' := transfer (mkLabel 1%float) FALSE TRUE 1e20%float unit_weights 1 w in
  sum3 (dist w) = 1%float /\ sum3 (dist w') = 0%float.
Proof. split; vm_compute; reflexivity. Qed.

(** ** Pruning, in exact arithmetic *)

Section Pruning.
Open Scope Q_scope.

Lemma greater_exact (a b : Q) : greater a b = true <-> b < a.
Proof.
  unfold greater. cbn. rewrite negb_true_iff. split.
  - intros Hf. apply Qnot_le_lt. intros Hle. apply Qle_bool_iff in Hle. congruence.
  - intros Hlt. destruct (Qle_bool a b) eqn:E; [ | reflexivity].
    apply Qle_bool_iff in E. apply Qle_not_lt in E. contradiction.
Qed.

Lemma variance_term_nonneg (d s wgt : Q) :
  greater wgt lit_1e_20 = true -> d * d <= s * wgt -> 0 <= s - d * d / wgt.
Proof.
  intros Hgt Hcs. apply greater_exact in Hgt. cbn in Hgt.
  assert (Hpos : 0 < wgt) by (eapply Qlt_trans; [ | exact Hgt]; reflexivity).
  assert (Hdiv : d * d / wgt <= s) by (apply Qle_shift_div_r; assumption).
  lra.
Qed.

Lemma missing_nonneg (w : W_regress Q) (optional : bool) :
  coherent w -> 0 <= missing w optional.
Proof.
  intros Hco. unfold missing.
  destruct (greater (get (wt w) MISSING) lit_1e_20) eqn:E.
  - apply variance_term_nonneg; [exact E | apply Hco].
  - apply Qle_refl.
Qed.

Lemma non_missing_lower_bound (w : W_regress Q) (m : Q) :
  coherent w -> m <= non_missing w m.
Proof.
  intros Hco. unfold non_missing. cbn [fold_left].
  pose proof (Hco FALSE) as HF. pose proof (Hco TRUE) as HT.
  destruct (greater (get (wt w) FALSE) lit_1e_20) eqn:EF;
    destruct (greater (get (wt w) TRUE) lit_1e_20) eqn:ET.
  - pose proof (variance_term_nonneg EF HF).
    pose proof (variance_term_nonneg ET HT).
    cbn [plus minus times divide Exact.scalar] in *. lra.
  - pose proof (variance_term_nonneg EF HF).
    cbn [plus minus times divide Exact.scalar] in *. lra.
  - pose proof (variance_term_nonneg ET HT).
    cbn [plus minus times divide Exact.scalar] in *. lra.
  - apply Qle_refl.
Qed.

Lemma can_beat_false_exact (w : W_regress Q) (m z_best : Q) :
  can_beat w m z_best = false -> z_best * (10001 # 10000) < m.
Proof.
  unfold can_beat. cbn. intros Hf. apply Qnot_le_lt. intros Hle.
  apply Qle_bool_iff in Hle. congruence.
Qed.

End Pruning.

(** The pruning bound in exact arithmetic: for every accumulator state
    whose buckets obey [dist^2 <= sqr * wt], and every [z_best], when
    [can_beat(w, missing(w), z_best)] is false, the full score
    [operator()(w)] is at least [z_best], and indeed above it. *)
Theorem pruning_sound_on_coherent_states (w : W_regress Q) (z_best : Q) :
  coherent w ->
  can_beat w (missing w false) z_best = false ->
  (z_best <= Z_regress_call w)%Q /\ (z_best < Z_regress_call w)%Q.
Proof.
  intros Hco Hcb. apply can_beat_false_exact in Hcb.
  pose proof (missing_nonneg false Hco) as Hm.
  pose proof (non_missing_lower_bound (missing w false) Hco) as Hn.
  unfold Z_regress_call. split; lra.
Qed.

Section Coherence.
Open Scope Q_scope.

Lemma cauchy_schwarz_step (d s wgt f x : Q) :
  0 <= wgt -> 0 <= s -> d * d <= s * wgt -> 0 <= x ->
  0 <= wgt + x /\ 0 <= s + f * (f * x) /\
  (d + f * x) * (d + f * x) <= (s + f * (f * x)) * (wgt + x).
Proof.
  intros Hw Hs Hcs Hx.
  assert (Hff : 0 <= f * f) by (destruct (Qlt_le_dec f 0); nra).
  assert (Hffx : 0 <= (f * f) * x) by (apply Qmult_le_0_compat; assumption).
  assert (Hsx : 0 <= s * x) by (apply Qmult_le_0_compat; assumption).
  repeat split; [lra | lra | ].
  assert (Hkey : 0 <= s + f * f * wgt - 2 * d * f).
  { destruct (Qlt_le_dec 0 wgt) as [Hpos | Hzero].
    - assert (Hsq : 0 <= (d - f * wgt) * (d - f * wgt))
        by (destruct (Qlt_le_dec (d - f * wgt) 0); nra).
      assert (Hmul : 0 <= wgt * (s + f * f * wgt - 2 * d * f)) by lra.
      destruct (Qlt_le_dec (s + f * f * wgt - 2 * d * f) 0) as [Hneg | Hge];
        [ | exact Hge].
      exfalso. assert (wgt * (s + f * f * wgt - 2 * d * f) < 0) by nra. lra.
    - assert (Hw0 : wgt == 0) by lra.
      assert (Hd : d * d <= 0) by (rewrite Hw0 in Hcs; lra).
      assert (Hd0 : d == 0)
        by (destruct (Qlt_le_dec d 0); destruct (Qlt_le_dec 0 d); nra).
      rewrite Hw0, Hd0. lra. }
  assert (Hprod : 0 <= x * (s + f * f * wgt - 2 * d * f))
    by (apply Qmult_le_0_compat; assumption).
  lra.
Qed.
End Coherence.

(** In [w_missing_only] MISSING holds [dist = 0], [sqr = 2], [wt = 2]:
    the state is coherent, the missing term 2 is above [1 * 1.0001], and
    the score is 2. *)
Lemma pruning_sound_on_coherent_states_witness :
  coherent w_missing_only /\
  can_beat (@w_missing_only Q _) (missing w_missing_only false) 1 = false /\
  ((1 <= Z_regress_call (@w_missing_only Q _))%Q /\
   (1 < Z_regress_call (@w_missing_only Q _))%Q).
Proof.
  assert (Hco : coherent w_missing_only).
  { intros b. destruct b; vm_compute; discriminate. }
  assert (Hcb : can_beat (@w_missing_only Q _) (missing w_missing_only false) 1
                = false) by (vm_compute; reflexivity).
  split; [exact Hco | split; [exact Hcb | ]].
  apply (@pruning_sound_on_coherent_states w_missing_only 1 Hco Hcb).
Defined.

(** On a state that is not coherent the bound fails.  In [w_incoherent]
    the missing term is 2 and bucket FALSE holds [wt = 1], [dist = 2],
    [sqr = 2], whose term [sqr - dist^2 / wt] is -2.  With [z_best = 1]:
    [can_beat] is false ([2 <= 1.0001] fails), yet the full score is
    [2 - 2 + 0 = 0], below [z_best]; on IEEE doubles and in exact
    arithmetic alike. *)
Lemma can_beat_false_yet_score_below :
  (missing (@w_incoherent float _) false = 2%float /\
   can_beat (@w_incoherent float _) (missing w_incoherent false) 1%float = false /\
   Z_regress_call (@w_incoherent float _) = 0%float /\
   less_equal 1%float (Z_regress_call (@w_incoherent float _)) = false) /\
  (can_beat (@w_incoherent Q _) (missing w_incoherent false) 1%Q = false /\
   (Z_regress_call (@w_incoherent Q _) == 0)%Q /\
   ~ (1 <= Z_regress_call (@w_incoherent Q _))%Q).
Proof.
  split.
  - repeat split; vm_compute; reflexivity.
  - repeat split; try (vm_compute; reflexivity).
    vm_compute. intros Hle. apply Hle. reflexivity.
Qed.

(** The state of the counterexample is not coherent, at bucket FALSE. *)
Lemma w_incoherent_not_coherent : ~ coherent w_incoherent.
Proof. intros Hco. specialize (Hco FALSE). vm_compute in Hco. apply Hco. reflexivity. Qed.

(** ** Pruning on the doubles the code computes with *)

(** C1.  The code prunes a split that beats the best score.  Three
    [add] calls of unit weight on a fresh accumulator, labels 1 and -1 to
    MISSING and label 10001.5 to FALSE, leave [dist[FALSE] = 10001.5] but
    [sqr[FALSE] = 100030000]: the [float] temporary [ffw] rounds
    [10001.5^2 = 100030002.25] to binary32, while [non_missing] squares
    [dist] in [double].  The term of FALSE is then -2.25, the missing
    term is 2, and with [z_best = 1]: [can_beat] is false, yet the full
    score is -0.25, which is [better] than [z_best].  In exact
    arithmetic the same calls give a coherent state of score 2, at least
    [z_best]. *)
Theorem pruning_skips_better_split_under_rounding :
  (let w := run (three_examples 10001.5%float) W_zero in
   Forall (fun c => is_add c = true /\ call_weight c = 1%float)
          (three_examples 10001.5%float) /\
   get (wt w) FALSE = 1%float /\
   get (dist w) FALSE = 10001.5%float /\
   get (sqr w) FALSE = 100030000%float /\
   missing w false = 2%float /\
   can_beat w (missing w false) 1%float = false /\
   Z_regress_call w = (-0.25)%float /\
   less_equal 1%float (Z_regress_call w) = false /\
   better (Z_regress_call w) 1%float = true) /\
  (let w := run (three_examples (20003 # 2)%Q) W_zero in
   coherent w /\
   (get (sqr w) FALSE == (20003 # 2) * (20003 # 2))%Q /\
   can_beat w (missing w false) 1%Q = false /\
   (Z_regress_call w == 2)%Q /\
   (1 <= Z_regress_call w)%Q).
Proof.
  cbv zeta. split.
  - split; [repeat constructor | ].
    repeat split; vm_compute; reflexivity.
  - split; [intros b; destruct b; vm_compute; discriminate | ].
    repeat split; try (vm_compute; reflexivity).
    vm_compute. discriminate.
Qed.

(** ** Where coherent states come from *)

Section AddsOnly.
Open Scope Q_scope.

Lemma W_zero_sums_of_weighted_examples : sums_of_weighted_examples W_zero.
Proof. intros b. destruct b; vm_compute; repeat split; discriminate. Qed.

Lemma add_sums_of_weighted_examples (l : Label Q) (b : Bucket) (weight : Q)
    (it : Iterator Q) (adv : Z) (w : W_regress Q) :
  0 <= deref it * weight ->
  sums_of_weighted_examples w ->
  sums_of_weighted_examples (add l b weight it adv w).
Proof.
  intros Hx Hw b'. 
  destruct (Hw b) as [Hwt [Hsqr Hcs]].
  pose proof (cauchy_schwarz_step (value l) Hwt Hsqr Hcs Hx) as Hstep.
  specialize (Hw b').
  destruct w as [[d0 d1 d2] [s0 s1 s2] [w0 w1 w2]].
  destruct b, b'; cbn in *; assumption.
Qed.

(** Statistics accumulated by [add] calls of non-negative weight, from a
    fresh accumulator, are coherent. *)
Lemma adds_coherent (cs : list (call Q)) :
  Forall (fun c => is_add c = true /\ 0 <= call_weight c) cs ->
  coherent (run cs W_zero).
Proof.
  intros Hcs.
  assert (Hinv : forall w, sums_of_weighted_examples w ->
                           sums_of_weighted_examples (run cs w)).
  { induction Hcs as [ | c cs [Hadd Hx] _ IH]; intros w Hw; [exact Hw | ].
    destruct c as [l b weight it adv | l from to weight it adv];
      [ | discriminate Hadd].
    change (sums_of_weighted_examples (run cs (add l b weight it adv w))).
    apply IH, add_sums_of_weighted_examples; assumption. }
  intros b. apply (Hinv W_zero W_zero_sums_of_weighted_examples b).
Qed.

End AddsOnly.

(** ** The worked example *)

(** C3.  From a freshly constructed accumulator, five unit-weight
    examples with labels [1, -1, 1, 1, -1] added to TRUE leave
    [wt[TRUE] = 5], [dist[TRUE] = 1], [sqr[TRUE] = 5], a missing term of 0
    and a score of [5 - (1*1)/5 = 4.8]; moving one example of label 1 and
    weight 1 from TRUE to FALSE then leaves [wt[TRUE] = 4],
    [dist[TRUE] = 0], [sqr[TRUE] = 4], [wt[FALSE] = 1], [dist[FALSE] = 1],
    [sqr[FALSE] = 1] and a score of 4.  This holds on IEEE doubles, bit
    for bit, and in exact arithmetic. *)
Theorem end_to_end_example :
  ((@W_regress_new float _ 1 = Returns W_zero /\
    get (wt (@w_five float _)) TRUE = 5%float /\
    get (dist (@w_five float _)) TRUE = 1%float /\
    get (sqr (@w_five float _)) TRUE = 5%float /\
    missing (@w_five float _) false = 0%float /\
    Z_regress_call (@w_five float _) = 4.8%float) /\
   (get (wt (@w_five_moved float _)) TRUE = 4%float /\
    get (dist (@w_five_moved float _)) TRUE = 0%float /\
    get (sqr (@w_five_moved float _)) TRUE = 4%float /\
    get (wt (@w_five_moved float _)) FALSE = 1%float /\
    get (dist (@w_five_moved float _)) FALSE = 1%float /\
    get (sqr (@w_five_moved float _)) FALSE = 1%float /\
    Z_regress_call (@w_five_moved float _) = 4%float)) /\
  ((@W_regress_new Q _ 1 = Returns W_zero /\
    get (wt (@w_five Q _)) TRUE == 5 /\
    get (dist (@w_five Q _)) TRUE == 1 /\
    get (sqr (@w_five Q _)) TRUE == 5 /\
    missing (@w_five Q _) false == 0 /\
    Z_regress_call (@w_five Q _) == 5 - (1 * 1) / 5 /\
    Z_regress_call (@w_five Q _) == 48 # 10) /\
   (get (wt (@w_five_moved Q _)) TRUE == 4 /\
    get (dist (@w_five_moved Q _)) TRUE == 0 /\
    get (sqr (@w_five_moved Q _)) TRUE == 4 /\
    get (wt (@w_five_moved Q _)) FALSE == 1 /\
    get (dist (@w_five_moved Q _)) FALSE == 1 /\
    get (sqr (@w_five_moved Q _)) FALSE == 1 /\
    Z_regress_call (@w_five_moved Q _) == (4 - 0) + (1 - 1) /\
    Z_regress_call (@w_five_moved Q _) == 4))%Q.
Proof.
  split; (split; repeat split; vm_compute; reflexivity).
Qed.

(** The [add] overload that takes no weight, and passes 1.0, builds the
    same state. *)
Example w_five_unweighted :
  fold_left (fun w f => add_unweighted (mkLabel f) TRUE unit_weights 1 w)
            [1; -1; 1; 1; -1]%float W_zero
  = w_five.
Proof. vm_compute. reflexivity. Qed.

(** * Further properties of the accumulator *)

(** ** Swapping two buckets *)

Section ArrayRoundTrip.
Context {T : Type}.

Lemma set_get (a : array3 T) (b : Bucket) : set a b (get a b) = a.
Proof. destruct a, b; reflexivity. Qed.

Lemma set_commute (a : array3 T) (b1 b2 : Bucket) (u v : T) :
  b1 <> b2 -> set (set a b1 u) b2 v = set (set a b2 v) b1 u.
Proof. destruct b1, b2; intros Hne; try reflexivity; congruence. Qed.

End ArrayRoundTrip.

(** X1.  [swap_buckets(b1, b2)] puts the three fields of [b2] in [b1] and
    those of [b1] in [b2], leaves the third bucket alone, does the same
    as [swap_buckets(b2, b1)], and undoes itself. *)
Theorem swap_buckets_exchanges {T : Type} (w : W_regress T) (b1 b2 : Bucket) :
  (get (dist (swap_buckets b1 b2 w)) b1 = get (dist w) b2 /\
   get (sqr (swap_buckets b1 b2 w)) b1 = get (sqr w) b2 /\
   get (wt (swap_buckets b1 b2 w)) b1 = get (wt w) b2) /\
  (get (dist (swap_buckets b1 b2 w)) b2 = get (dist w) b1 /\
   get (sqr (swap_buckets b1 b2 w)) b2 = get (sqr w) b1 /\
   get (wt (swap_buckets b1 b2 w)) b2 = get (wt w) b1) /\
  (forall b : Bucket, b <> b1 -> b <> b2 ->
     get (dist (swap_buckets b1 b2 w)) b = get (dist w) b /\
     get (sqr (swap_buckets b1 b2 w)) b = get (sqr w) b /\
     get (wt (swap_buckets b1 b2 w)) b = get (wt w) b) /\
  swap_buckets b1 b2 w = swap_buckets b2 b1 w /\
  swap_buckets b1 b2 (swap_buckets b1 b2 w) = w.
Proof.
  destruct w as [[d0 d1 d2] [s0 s1 s2] [w0 w1 w2]].
  split; [ | split; [ | split; [ | split]]].
  - destruct b1, b2; repeat split.
  - destruct b1, b2; repeat split.
  - intros b Hb1 Hb2. destruct b1, b2, b; repeat split; congruence.
  - destruct b1, b2; reflexivity.
  - destruct b1, b2; reflexivity.
Qed.

(** ** Clipping, further *)

Section ClipFurther.
Context {T : Type} {ST : Scalar T}.

Lemma std_max_fixes (x : T) : less x lit_0_0 = false -> std_max x lit_0_0 = x.
Proof. intros E. unfold std_max. rewrite E. reflexivity. Qed.

End ClipFurther.

(** X4.  Clipping two buckets gives the same state in either order. *)
Theorem clip_commutes {T : Type} {ST : Scalar T}
    (w : W_regress T) (b1 b2 : Bucket) :
  clip b1 (clip b2 w) = clip b2 (clip b1 w).
Proof.
  destruct w as [[d0 d1 d2] [s0 s1 s2] [w0 w1 w2]].
  destruct b1, b2; try reflexivity.
Qed.

(** X5.  [clip(b)] changes nothing when no field of [b] compares below [0.0]
    (a NaN field does not). *)
Theorem clip_fixes_bucket_without_negative_field {T : Type} {ST : Scalar T}
    (w : W_regress T) (b : Bucket) :
  less (get (dist w) b) lit_0_0 = false ->
  less (get (sqr w) b) lit_0_0 = false ->
  less (get (wt w) b) lit_0_0 = false ->
  clip b w = w.
Proof.
  intros Hd Hs Hw. rewrite clip_fields.
  rewrite !std_max_fixes by assumption. rewrite !set_get.
  destruct w; reflexivity.
Qed.

(** Bucket TRUE of [w_five] holds 1, 5 and 5, none below zero. *)
Lemma clip_fixes_bucket_without_negative_field_witness :
  (less (get (dist (@w_five float _)) TRUE) lit_0_0 = false /\
   less (get (sqr (@w_five float _)) TRUE) lit_0_0 = false /\
   less (get (wt (@w_five float _)) TRUE) lit_0_0 = false) /\
  clip TRUE (@w_five float _) = w_five.
Proof.
  assert (Hd : less (get (dist (@w_five float _)) TRUE) lit_0_0 = false)
    by (vm_compute; reflexivity).
  assert (Hs : less (get (sqr (@w_five float _)) TRUE) lit_0_0 = false)
    by (vm_compute; reflexivity).
  assert (Hw : less (get (wt (@w_five float _)) TRUE) lit_0_0 = false)
    by (vm_compute; reflexivity).
  split; [repeat split; assumption | ].
  exact (@clip_fixes_bucket_without_negative_field float _ w_five TRUE Hd Hs Hw).
Defined.

(** ** Scores: what they read and how they compare *)

Section MissingFrame.
Context {T : Type} {ST : Scalar T}.

Lemma missing_reads_missing_bucket (w1 w2 : W_regress T) (o1 o2 : bool) :
  get (dist w1) MISSING = get (dist w2) MISSING ->
  get (sqr w1) MISSING = get (sqr w2) MISSING ->
  get (wt w1) MISSING = get (wt w2) MISSING ->
  missing w1 o1 = missing w2 o2.
Proof. intros Hd Hs Hw. unfold missing. rewrite Hd, Hs, Hw. reflexivity. Qed.

Lemma add_frame (l : Label T) (b b' : Bucket) (weight : T) (it : Iterator T)
    (adv : Z) (w : W_regress T) :
  b' <> b ->
  get (dist (add l b weight it adv w)) b' = get (dist w) b' /\
  get (sqr (add l b weight it adv w)) b' = get (sqr w) b' /\
  get (wt (add l b weight it adv w)) b' = get (wt w) b'.
Proof.
  intros Hne. unfold add, set_dist, set_sqr, set_wt. cbn [dist sqr wt].
  rewrite !get_set_other by assumption. repeat split.
Qed.

Lemma transfer_frame (l : Label T) (from to b' : Bucket) (weight : T)
    (it : Iterator T) (adv : Z) (w : W_regress T) :
  b' <> from -> b' <> to ->
  get (dist (transfer l from to weight it adv w)) b' = get (dist w) b' /\
  get (sqr (transfer l from to weight it adv w)) b' = get (sqr w) b' /\
  get (wt (transfer l from to weight it adv w)) b' = get (wt w) b'.
Proof.
  intros Hf Ht. unfold transfer, set_dist, set_sqr, set_wt. cbn [dist sqr wt].
  rewrite !get_set_other by assumption. repeat split.
Qed.

End MissingFrame.

(** X7.  The missing term is the same before and after an [add] to FALSE or
    TRUE and a [transfer] between FALSE and TRUE: it reads bucket MISSING
    only, so it can be computed once for a whole sweep of a feature. *)
Theorem missing_unchanged_by_sweep {T : Type} {ST : Scalar T}
    (correct_label : Label T) (from to : Bucket) (weight : T)
    (it : Iterator T) (advance : Z) (optional optional' : bool)
    (w : W_regress T) :
  from <> MISSING -> to <> MISSING ->
  missing (transfer correct_label from to weight it advance w) optional
    = missing w optional' /\
  missing (add correct_label to weight it advance w) optional
    = missing w optional'.
Proof.
  intros Hf Ht. split.
  - destruct (transfer_frame correct_label weight it advance w
                (b' := MISSING) (from := from) (to := to)) as [Hd [Hs Hw]];
      try congruence.
    apply missing_reads_missing_bucket; assumption.
  - destruct (add_frame correct_label weight it advance w
                (b' := MISSING) (b := to)) as [Hd [Hs Hw]]; try congruence.
    apply missing_reads_missing_bucket; assumption.
Qed.

(** Moving an example from TRUE to FALSE in [w_incoherent], whose
    missing term is 2. *)
Lemma missing_unchanged_by_sweep_witness :
  (TRUE <> MISSING /\ FALSE <> MISSING) /\
  (missing (transfer (mkLabel 1%float) TRUE FALSE 1%float unit_weights 1
                     w_incoherent) true
     = missing w_incoherent false /\
   missing (add (mkLabel 1%float) FALSE 1%float unit_weights 1
                w_incoherent) true
     = missing w_incoherent false).
Proof.
  split; [split; discriminate | ].
  apply (@missing_unchanged_by_sweep float _); discriminate.
Defined.

Section BetterFacts.
Context {T : Type} {ST : Scalar T} {OT : ScalarOrder T}.

Lemma less_asymmetric (a b : T) : less a b = true -> less b a = false.
Proof. intros Hab. apply less_equal_not_less, less_less_equal, Hab. Qed.

Lemma less_irreflexive (a : T) : less a a = false.
Proof.
  destruct (less a a) eqn:E; [ | reflexivity].
  rewrite (less_asymmetric _ _ E) in E. discriminate E.
Qed.

End BetterFacts.

(** X8.  [better] is a strict comparison: no score is better than itself, and
    of two scores at most one is better than the other; this holds with
    NaN scores and with the [none] flag among them. *)
Theorem better_asymmetric {T : Type} {ST : Scalar T} {OT : ScalarOrder T}
    (z1 z2 : T) :
  better z1 z1 = false /\
  (better z1 z2 = true -> better z2 z1 = false).
Proof.
  unfold better. split.
  - rewrite less_irreflexive. apply andb_false_r.
  - intros Hb. apply andb_true_iff in Hb. destruct Hb as [_ Hlt].
    rewrite (less_asymmetric _ _ Hlt). apply andb_false_r.
Qed.

(** On IEEE doubles: 0 is better than 1, and 1 is not better than 0. *)
Lemma better_asymmetric_witness :
  better 0%float 0%float = false /\
  better 0%float 1%float = true /\
  better 1%float 0%float = false.
Proof.
  destruct (@better_asymmetric float _ IEEE_order 0%float 1%float)
    as [Hirr Hasym].
  split; [exact Hirr | ].
  assert (Hb : better 0%float 1%float = true) by (vm_compute; reflexivity).
  split; [exact Hb | exact (Hasym Hb)].
Defined.

Section BetterEqual.

Lemma SFltb_not_SFeqb (x y : spec_float) :
  SFltb x y = true -> SFeqb x y = false /\ SFeqb y x = false.
Proof.
  unfold SFltb, SFeqb. rewrite (SFcompare_antisym x y).
  destruct (SFcompare x y) as [[ | | ] | ]; simpl; intros Hlt;
    try discriminate Hlt; split; reflexivity.
Qed.

Lemma Qlt_not_Qeq_bool (a b : Q) :
  negb (Qle_bool b a) = true -> Qeq_bool a b = false /\ Qeq_bool b a = false.
Proof.
  intros Hlt. apply negb_true_iff in Hlt.
  split.
  - destruct (Qeq_bool a b) eqn:E; [ | reflexivity].
    apply Qeq_bool_iff in E.
    assert (Hle : (b <= a)%Q) by (rewrite E; apply Qle_refl).
    apply Qle_bool_iff in Hle. congruence.
  - destruct (Qeq_bool b a) eqn:E; [ | reflexivity].
    apply Qeq_bool_iff in E.
    assert (Hle : (b <= a)%Q) by (rewrite E; apply Qle_refl).
    apply Qle_bool_iff in Hle. congruence.
Qed.

End BetterEqual.

(** X9.  The [none] flag is never better than any score, and a score that is
    better than another is not [equal] to it; on IEEE doubles and on
    rationals. *)
Theorem none_never_better_and_better_excludes_equal :
  (forall z : float, better none z = false) /\
  (forall z : Q, better none z = false) /\
  (forall z1 z2 : float,
     better z1 z2 = true -> equal z1 z2 = false /\ equal z2 z1 = false) /\
  (forall z1 z2 : Q,
     better z1 z2 = true -> equal z1 z2 = false /\ equal z2 z1 = false).
Proof.
  split; [ | split; [ | split]].
  - intros z. reflexivity.
  - intros z. reflexivity.
  - intros z1 z2 Hb. unfold better in Hb. apply andb_true_iff in Hb.
    destruct Hb as [_ Hlt]. unfold equal.
    cbn [less equal_to IEEE.scalar] in *.
    rewrite ltb_spec in Hlt. rewrite !eqb_spec.
    apply SFltb_not_SFeqb, Hlt.
  - intros z1 z2 Hb. unfold better in Hb. apply andb_true_iff in Hb.
    destruct Hb as [_ Hlt]. unfold equal.
    cbn [less equal_to Exact.scalar] in *.
    apply Qlt_not_Qeq_bool, Hlt.
Qed.

(** X10.  When no bucket's weight exceeds [1e-20] (a fresh accumulator, for
    one), the missing term and the full score are exactly [0.0], the
    [perfect] score: no division is made. *)
Theorem weightless_state_scores_perfect
    {T : Type} {ST : Scalar T} {OT : ScalarOrder T}
    (w : W_regress T) (optional : bool) :
  (forall i : Bucket, less_equal (get (wt w) i) lit_1e_20 = true) ->
  missing w optional = lit_0_0 /\
  (forall m : T, non_missing w m = m) /\
  Z_regress_call w = perfect.
Proof.
  intros Hle.
  assert (Hgt : forall i, greater (get (wt w) i) lit_1e_20 = false).
  { intros i. unfold greater. apply less_equal_not_less, Hle. }
  assert (Hm : forall o, missing w o = lit_0_0).
  { intros o. unfold missing. rewrite Hgt. reflexivity. }
  assert (Hn : forall m : T, non_missing w m = m).
  { intros m. unfold non_missing. cbn [fold_left]. rewrite !Hgt. reflexivity. }
  split; [apply Hm | split; [exact Hn | ]].
  unfold Z_regress_call. rewrite Hn. apply Hm.
Qed.

(** On IEEE doubles the fresh accumulator scores [0.0]. *)
Lemma weightless_state_scores_perfect_witness :
  (forall i : Bucket,
     less_equal (get (wt (@W_zero float _)) i) lit_1e_20 = true) /\
  missing (@W_zero float _) false = lit_0_0 /\
  (forall m : float, non_missing (@W_zero float _) m = m) /\
  Z_regress_call (@W_zero float _) = perfect.
Proof.
  assert (Hle : forall i : Bucket,
            less_equal (get (wt (@W_zero float _)) i) lit_1e_20 = true).
  { intros i. destruct i; vm_compute; reflexivity. }
  split; [exact Hle | ].
  exact (@weightless_state_scores_perfect float _ IEEE_order W_zero false Hle).
Defined.

(** ** Construction, further *)

(** X11.  An accumulator the constructor returns is the all-zero one, and its
    [nl()] is the [nl] it was constructed with. *)
Theorem constructed_accumulator_nl {T : Type} {ST : Scalar T}
    (numLabels : N) (w : W_regress T) :
  W_regress_new numLabels = Returns w ->
  w = W_zero /\ nl w = numLabels.
Proof.
  unfold W_regress_new. destruct (N.eqb_spec numLabels 1) as [E | E]; cbn.
  - intros Hr. injection Hr as <-. split; [reflexivity | ]. symmetry. exact E.
  - intros Hr. discriminate Hr.
Qed.

Lemma constructed_accumulator_nl_witness :
  @W_regress_new float _ 1 = Returns W_zero /\
  (@W_zero float _ = W_zero /\ nl (@W_zero float _) = 1%N).
Proof.
  assert (Hr : @W_regress_new float _ 1 = Returns W_zero) by reflexivity.
  split; [exact Hr | ].
  exact (@constructed_accumulator_nl float _ 1%N W_zero Hr).
Defined.

(** ** Exact arithmetic: how calls compose *)

Ltac split_W_eq :=
  unfold W_eq, array3_eq in *; cbn in *; repeat split.

Section ExactStates.
Open Scope Q_scope.

Lemma W_eq_refl (w : W_regress Q) : W_eq w w.
Proof. split_W_eq; reflexivity. Qed.

Lemma W_eq_sym (w1 w2 : W_regress Q) : W_eq w1 w2 -> W_eq w2 w1.
Proof. intros H. split_W_eq; symmetry; apply H. Qed.

Lemma W_eq_trans (w1 w2 w3 : W_regress Q) :
  W_eq w1 w2 -> W_eq w2 w3 -> W_eq w1 w3.
Proof.
  intros H12 H23. split_W_eq; (etransitivity; [apply H12 | apply H23]).
Qed.

Lemma perform_W_eq (c : call Q) (w1 w2 : W_regress Q) :
  W_eq w1 w2 -> W_eq (perform c w1) (perform c w2).
Proof.
  destruct w1 as [[d0 d1 d2] [s0 s1 s2] [x0 x1 x2]].
  destruct w2 as [[d0' d1' d2'] [s0' s1' s2'] [x0' x1' x2']].
  intros H. unfold W_eq, array3_eq in H. cbn in H.
  destruct H as [[Hd0 [Hd1 Hd2]] [[Hs0 [Hs1 Hs2]] [Hx0 [Hx1 Hx2]]]].
  destruct c as [l b weight it adv | l from to weight it adv].
  - destruct b; split_W_eq;
      first [assumption | rewrite Hd0 | rewrite Hd1 | rewrite Hd2
             | rewrite Hs0 | rewrite Hs1 | rewrite Hs2
             | rewrite Hx0 | rewrite Hx1 | rewrite Hx2]; reflexivity.
  - destruct from, to; split_W_eq;
      first [assumption
            | rewrite ?Hd0, ?Hd1, ?Hd2, ?Hs0, ?Hs1, ?Hs2, ?Hx0, ?Hx1, ?Hx2;
              reflexivity].
Qed.

Lemma run_W_eq (cs : list (call Q)) :
  forall w1 w2 : W_regress Q, W_eq w1 w2 -> W_eq (run cs w1) (run cs w2).
Proof.
  induction cs as [ | c cs IH]; intros w1 w2 H; [exact H | ].
  change (W_eq (run cs (perform c w1)) (run cs (perform c w2))).
  apply IH, perform_W_eq, H.
Qed.

Lemma perform_commute (c1 c2 : call Q) (w : W_regress Q) :
  W_eq (perform c1 (perform c2 w)) (perform c2 (perform c1 w)).
Proof.
  destruct w as [[d0 d1 d2] [s0 s1 s2] [x0 x1 x2]].
  destruct c1 as [l1 b1 wgt1 it1 adv1 | l1 f1 t1 wgt1 it1 adv1];
    destruct c2 as [l2 b2 wgt2 it2 adv2 | l2 f2 t2 wgt2 it2 adv2].
  - destruct b1, b2; split_W_eq; ring.
  - destruct b1, f2, t2; split_W_eq; ring.
  - destruct f1, t1, b2; split_W_eq; ring.
  - destruct f1, t1, f2, t2; split_W_eq; ring.
Qed.

End ExactStates.

(** X15.  In exact arithmetic the state a sequence of [add] and [transfer]
    calls leaves does not depend on the order of the calls. *)
Theorem run_order_irrelevant (calls1 calls2 : list (call Q)) (w : W_regress Q) :
  Permutation calls1 calls2 -> W_eq (run calls1 w) (run calls2 w).
Proof.
  intros Hperm. revert w.
  induction Hperm as [ | c cs1 cs2 _ IH | c1 c2 cs | cs1 cs2 cs3 _ IH1 _ IH2];
    intros w.
  - apply W_eq_refl.
  - change (W_eq (run cs1 (perform c w)) (run cs2 (perform c w))). apply IH.
  - change (W_eq (run cs (perform c1 (perform c2 w)))
                 (run cs (perform c2 (perform c1 w)))).
    apply run_W_eq, perform_commute.
  - eapply W_eq_trans; [apply IH1 | apply IH2].
Qed.

(** Two of the calls behind [w_incoherent], in either order. *)
Lemma run_order_irrelevant_witness :
  let c1 := Add (mkLabel 1%Q) FALSE 1%Q (constant_weights 1%Q) 1 in
  let c2 := Transfer (mkLabel 0%Q) FALSE TRUE 1%Q (constant_weights 1%Q) 1 in
  Permutation [c1; c2] [c2; c1] /\
  W_eq (run [c1; c2] W_zero) (run [c2; c1] W_zero).
Proof.
  cbv zeta.
  match goal with |- Permutation ?l1 ?l2 /\ _ =>
    assert (Hperm : Permutation l1 l2) by apply perm_swap;
    split; [exact Hperm | exact (@run_order_irrelevant l1 l2 W_zero Hperm)]
  end.
Defined.

(** X12.  In exact arithmetic a [transfer] is undone by the [transfer] of the
    same example in the opposite direction. *)
Theorem transfer_back_restores
    (correct_label : Label Q) (from to : Bucket) (weight : Q)
    (it : Iterator Q) (advance advance' : Z) (w : W_regress Q) :
  W_eq (transfer correct_label to from weight it advance'
          (transfer correct_label from to weight it advance w))
       w.
Proof.
  destruct w as [[d0 d1 d2] [s0 s1 s2] [x0 x1 x2]].
  destruct from, to; split_W_eq; ring.
Qed.

(** X13.  In exact arithmetic a [transfer] from a bucket to that same bucket
    leaves every field as it was: the amount taken out of [from] is put
    back through [to], the same entry. *)
Theorem transfer_to_same_bucket_no_op
    (correct_label : Label Q) (b : Bucket) (weight : Q)
    (it : Iterator Q) (advance : Z) (w : W_regress Q) :
  W_eq (transfer correct_label b b weight it advance w) w.
Proof.
  destruct w as [[d0 d1 d2] [s0 s1 s2] [x0 x1 x2]].
  destruct b; split_W_eq; ring.
Qed.

(** X14.  In exact arithmetic [transfer] is an [add] of the negated weight to
    [from] followed by an [add] of the weight to [to]. *)
Theorem transfer_is_remove_then_add
    (correct_label : Label Q) (from to : Bucket) (weight : Q)
    (it : Iterator Q) (advance : Z) (w : W_regress Q) :
  W_eq (transfer correct_label from to weight it advance w)
       (add correct_label to weight it advance
          (add correct_label from (minus lit_0_0 weight) it advance w)).
Proof.
  destruct w as [[d0 d1 d2] [s0 s1 s2] [x0 x1 x2]].
  destruct from, to; split_W_eq; ring.
Qed.

(** X16.  In exact arithmetic, after any sequence of calls the sum over the
    buckets of each field is what it was before the sequence plus what
    the [add] calls of the sequence handed over. *)
Theorem run_accounts_for_adds (calls : list (call Q)) (w : W_regress Q) :
  (sum3 (wt (run calls w)) == sum3 (wt w) + added_wt calls)%Q /\
  (sum3 (dist (run calls w)) == sum3 (dist w) + added_dist calls)%Q /\
  (sum3 (sqr (run calls w)) == sum3 (sqr w) + added_sqr calls)%Q.
Proof.
  revert w. induction calls as [ | c cs IH]; intros w.
  - unfold added_wt, added_dist, added_sqr.
    cbn [run fold_left adds_only filter fold_right].
    repeat split; rewrite Qplus_0_r; reflexivity.
  - destruct c as [l b weight it adv | l from to weight it adv].
    + change (run (Add l b weight it adv :: cs) w)
        with (run cs (add l b weight it adv w)).
      destruct (IH (add l b weight it adv w)) as [Hw [Hd Hs]].
      destruct (add_sums l b weight it adv w) as [Hd1 [Hs1 Hw1]].
      unfold added_wt, added_dist, added_sqr in *. cbn [adds_only filter is_add
        fold_right call_weight call_label].
      fold (adds_only cs).
      rewrite Hw, Hd, Hs, Hw1, Hd1, Hs1.
      repeat split; rewrite Qplus_assoc; reflexivity.
    + change (run (Transfer l from to weight it adv :: cs) w)
        with (run cs (transfer l from to weight it adv w)).
      destruct (IH (transfer l from to weight it adv w)) as [Hw [Hd Hs]].
      destruct (transfer_same_sums l from to weight it adv w) as [Hd1 [Hs1 Hw1]].
      unfold added_wt, added_dist, added_sqr in *. cbn [adds_only filter is_add].
      fold (adds_only cs).
      rewrite Hw, Hd, Hs, Hw1, Hd1, Hs1. repeat split; reflexivity.
Qed.

(** ** Exact arithmetic: scores and predictions *)

Section ExactScores.
Open Scope Q_scope.

Lemma Z_regress_call_terms (w : W_regress Q) :
  Z_regress_call w
    == variance_term w MISSING + variance_term w FALSE + variance_term w TRUE.
Proof.
  unfold Z_regress_call, non_missing, missing, variance_term. cbn [fold_left].
  destruct (greater (get (wt w) MISSING) lit_1e_20),
           (greater (get (wt w) FALSE) lit_1e_20),
           (greater (get (wt w) TRUE) lit_1e_20);
    cbn [plus minus times divide lit_0_0 Exact.scalar]; ring.
Qed.

Lemma less_exact (a b : Q) : less a b = true <-> a < b.
Proof. apply (greater_exact b a). Qed.

Lemma less_false_exact (a b : Q) : less a b = false <-> b <= a.
Proof.
  cbn. rewrite negb_false_iff. apply Qle_bool_iff.
Qed.

Lemma uniform_variance_term (f : Q) (w : W_regress Q) (b : Bucket) :
  uniform_label f w -> variance_term w b == 0.
Proof.
  intros Hu. destruct (Hu b) as [Hd Hs]. unfold variance_term.
  destruct (greater (get (wt w) b) lit_1e_20) eqn:E; [ | reflexivity].
  apply greater_exact in E. cbn in E.
  cbn [plus minus times divide lit_0_0 Exact.scalar].
  rewrite Hd, Hs. field. intros H0. rewrite H0 in E. discriminate E.
Qed.

Lemma perform_uniform (f : Q) (c : call Q) (w : W_regress Q) :
  value (call_label c) == f -> uniform_label f w -> uniform_label f (perform c w).
Proof.
  intros Hl Hu.
  pose proof (Hu FALSE) as [Hd0 Hs0]. pose proof (Hu TRUE) as [Hd1 Hs1].
  pose proof (Hu MISSING) as [Hd2 Hs2].
  destruct w as [[d0 d1 d2] [s0 s1 s2] [x0 x1 x2]].
  cbn in Hd0, Hs0, Hd1, Hs1, Hd2, Hs2.
  destruct c as [l b weight it adv | l from to weight it adv]; cbn in Hl.
  - intros b'. destruct b, b'; cbn; split;
      rewrite ?Hl, ?Hd0, ?Hs0, ?Hd1, ?Hs1, ?Hd2, ?Hs2; ring.
  - intros b'. destruct from, to, b'; cbn; split;
      rewrite ?Hl, ?Hd0, ?Hs0, ?Hd1, ?Hs1, ?Hd2, ?Hs2; ring.
Qed.

Lemma run_uniform (f : Q) (cs : list (call Q)) :
  Forall (fun c => value (call_label c) == f) cs ->
  forall w, uniform_label f w -> uniform_label f (run cs w).
Proof.
  induction 1 as [ | c cs Hc _ IH]; intros w Hu; [exact Hu | ].
  change (uniform_label f (run cs (perform c w))).
  apply IH, perform_uniform; assumption.
Qed.

Lemma W_zero_uniform (f : Q) : uniform_label f W_zero.
Proof. intros b. destruct b; cbn; split; ring. Qed.

End ExactScores.

(** X17.  In exact arithmetic, when every call of a sequence run on a fresh
    accumulator carries the same label [f]: the score is 0, every bucket
    whose weight exceeds [1e-20] is predicted [f], and so is every other
    bucket unless the weights sum to zero. *)
Theorem uniform_labels_perfect_fit (f : Q) (calls : list (call Q)) :
  Forall (fun c => value (call_label c) == f)%Q calls ->
  (Z_regress_call (run calls W_zero) == 0)%Q /\
  (forall b : Bucket,
     greater (get (wt (run calls W_zero)) b) lit_1e_20 = true ->
     (leaf_value (run calls W_zero) b == f)%Q) /\
  (forall b : Bucket,
     greater (get (wt (run calls W_zero)) b) lit_1e_20 = false ->
     ~ (snd (totals (run calls W_zero)) == 0)%Q ->
     (leaf_value (run calls W_zero) b == f)%Q).
Proof.
  intros Hall.
  pose proof (run_uniform Hall (W_zero_uniform f)) as Hu.
  set (w := run calls W_zero) in *.
  split; [ | split].
  - rewrite Z_regress_call_terms, !(uniform_variance_term _ Hu). reflexivity.
  - intros b Hgt. unfold leaf_value. rewrite Hgt.
    destruct (Hu b) as [Hd _]. apply greater_exact in Hgt. cbn in Hgt.
    cbn [to_float divide Exact.scalar]. rewrite Hd. field.
    intros H0. rewrite H0 in Hgt. discriminate Hgt.
  - intros b Hgt Hnz. unfold leaf_value. rewrite Hgt.
    unfold sample_mean. unfold totals in *. cbn [fold_left fst snd] in *.
    destruct (Hu FALSE) as [Hd0 _], (Hu TRUE) as [Hd1 _],
             (Hu MISSING) as [Hd2 _].
    cbn [to_float divide plus lit_0_0 Exact.scalar] in *.
    rewrite Hd0, Hd1, Hd2. field.
    intros H0. apply Hnz. rewrite <- H0 at 2. ring.
Qed.

(** Three examples of label 1/2 with weights 1, 2 and 3, one in each
    bucket, and one of them moved: score 0, each bucket predicted 1/2. *)
Lemma uniform_labels_perfect_fit_witness :
  let half := mkLabel (1 # 2)%Q in
  let calls :=
    [ Add half FALSE 1%Q (constant_weights 1%Q) 1;
      Add half TRUE 1%Q (constant_weights 2%Q) 1;
      Add half TRUE 3%Q (constant_weights 1%Q) 1;
      Transfer half TRUE FALSE 1%Q (constant_weights 2%Q) 1 ] in
  Forall (fun c => value (call_label c) == 1 # 2)%Q calls /\
  (Z_regress_call (run calls W_zero) == 0)%Q /\
  (leaf_value (run calls W_zero) FALSE == 1 # 2)%Q /\
  (leaf_value (run calls W_zero) MISSING == 1 # 2)%Q.
Proof.
  cbv zeta.
  match goal with |- Forall _ ?cs /\ _ => set (calls := cs) end.
  assert (Hall : Forall (fun c => value (call_label c) == 1 # 2)%Q calls).
  { repeat constructor. }
  destruct (@uniform_labels_perfect_fit (1 # 2)%Q calls Hall)
    as [Hz [Hgt Hle]].
  split; [exact Hall | split; [exact Hz | split]].
  - apply Hgt. vm_compute. reflexivity.
  - apply Hle; [vm_compute; reflexivity | vm_compute; discriminate].
Defined.

(** X18.  In exact arithmetic, on a coherent state: the missing term is at
    least 0, the full score is at least the missing term, so the score
    is never below [perfect], never [better] than [perfect] and never
    the [none] flag. *)
Theorem coherent_score_at_least_perfect (w : W_regress Q) (optional : bool) :
  coherent w ->
  (0 <= missing w optional)%Q /\
  (missing w optional <= Z_regress_call w)%Q /\
  (perfect <= Z_regress_call w)%Q /\
  better (Z_regress_call w) perfect = false /\
  equal (Z_regress_call w) none = false.
Proof.
  intros Hco.
  pose proof (missing_nonneg optional Hco) as Hm.
  pose proof (missing_nonneg false Hco) as Hm'.
  pose proof (non_missing_lower_bound (missing w false) Hco) as Hn.
  assert (Hmo : missing w optional = missing w false) by reflexivity.
  assert (Hz : (0 <= Z_regress_call w)%Q) by (unfold Z_regress_call; lra).
  split; [exact Hm | split; [ | split; [exact Hz | split]]].
  - rewrite Hmo. exact Hn.
  - unfold better. replace (less (Z_regress_call w) perfect) with false.
    + apply andb_false_r.
    + symmetry. apply less_false_exact. exact Hz.
  - unfold equal, none. cbn [equal_to lit_m1_0 Exact.scalar].
    destruct (Qeq_bool (Z_regress_call w) (-1)) eqn:E; [ | reflexivity].
    apply Qeq_bool_iff in E. rewrite E in Hz. exfalso.
    apply (Qle_not_lt _ _ Hz). reflexivity.
Qed.

(** [w_missing_only] is coherent; its missing term and score are 2. *)
Lemma coherent_score_at_least_perfect_witness :
  coherent w_missing_only /\
  ((0 <= missing (@w_missing_only Q _) true)%Q /\
   (missing (@w_missing_only Q _) true <= Z_regress_call w_missing_only)%Q /\
   (perfect <= Z_regress_call (@w_missing_only Q _))%Q /\
   better (Z_regress_call (@w_missing_only Q _)) perfect = false /\
   equal (Z_regress_call (@w_missing_only Q _)) none = false).
Proof.
  assert (Hco : coherent w_missing_only).
  { intros b. destruct b; vm_compute; discriminate. }
  split; [exact Hco | ].
  exact (@coherent_score_at_least_perfect w_missing_only true Hco).
Defined.

(** X2.  In exact arithmetic [swap_buckets] changes neither the full score
    nor the sum over the buckets of any field. *)
Theorem swap_buckets_keeps_score (w : W_regress Q) (b1 b2 : Bucket) :
  (Z_regress_call (swap_buckets b1 b2 w) == Z_regress_call w)%Q /\
  same_sums (swap_buckets b1 b2 w) w.
Proof.
  split.
  - rewrite !Z_regress_call_terms.
    destruct w as [[d0 d1 d2] [s0 s1 s2] [x0 x1 x2]].
    destruct b1, b2; unfold variance_term, swap_buckets;
      cbn [get set dist sqr wt elt0 elt1 elt2]; ring.
  - destruct w as [[d0 d1 d2] [s0 s1 s2] [x0 x1 x2]].
    destruct b1, b2; unfold same_sums, sum3, swap_buckets;
      cbn [get set dist sqr wt elt0 elt1 elt2 plus Exact.scalar];
      repeat split; ring.
Qed.

(** X6.  In exact arithmetic, for a bucket whose weight exceeds [1e-20] and
    whose weighted label sum [dist] is negative: its prediction is
    negative, and after [clip] of that bucket, which sets [dist] to 0
    and keeps the weight, its prediction is 0. *)
Theorem clip_zeroes_negative_label_sum (w : W_regress Q) (b : Bucket) :
  (get (dist w) b < 0)%Q ->
  greater (get (wt w) b) lit_1e_20 = true ->
  (leaf_value w b < 0)%Q /\
  (get (dist (clip b w)) b == 0)%Q /\
  (get (wt (clip b w)) b == get (wt w) b)%Q /\
  (leaf_value (clip b w) b == 0)%Q.
Proof.
  intros Hd Hgt.
  assert (Hpos : (0 < get (wt w) b)%Q).
  { apply greater_exact in Hgt. cbn in Hgt.
    eapply Qlt_trans; [ | exact Hgt]. reflexivity. }
  assert (Hd' : std_max (get (dist w) b) lit_0_0 = 0%Q).
  { unfold std_max. replace (less (get (dist w) b) lit_0_0) with true.
    - reflexivity.
    - symmetry. apply less_exact. exact Hd. }
  assert (Hw' : std_max (get (wt w) b) lit_0_0 = get (wt w) b).
  { apply std_max_fixes. apply less_false_exact. apply Qlt_le_weak, Hpos. }
  split; [ | split; [ | split]].
  - unfold leaf_value. rewrite Hgt. cbn [to_float divide Exact.scalar].
    apply Qlt_shift_div_r; [exact Hpos | ]. rewrite Qmult_0_l. exact Hd.
  - rewrite clip_fields. cbn [dist]. rewrite get_set_same, Hd'. reflexivity.
  - rewrite clip_fields. cbn [wt]. rewrite get_set_same, Hw'. reflexivity.
  - unfold leaf_value. rewrite clip_fields. cbn [dist wt].
    rewrite !get_set_same, Hd', Hw', Hgt.
    cbn [to_float divide Exact.scalar]. unfold Qdiv. apply Qmult_0_l.
Qed.

(** One example of label -1: predicted -1 before [clip(TRUE)], 0 after. *)
Lemma clip_zeroes_negative_label_sum_witness :
  ((get (dist (@w_negative_label Q _)) TRUE < 0)%Q /\
   greater (get (wt (@w_negative_label Q _)) TRUE) lit_1e_20 = true) /\
  ((leaf_value (@w_negative_label Q _) TRUE < 0)%Q /\
   (get (dist (clip TRUE (@w_negative_label Q _))) TRUE == 0)%Q /\
   (get (wt (clip TRUE (@w_negative_label Q _))) TRUE
      == get (wt w_negative_label) TRUE)%Q /\
   (leaf_value (clip TRUE (@w_negative_label Q _)) TRUE == 0)%Q).
Proof.
  assert (Hd : (get (dist (@w_negative_label Q _)) TRUE < 0)%Q)
    by (vm_compute; reflexivity).
  assert (Hgt : greater (get (wt (@w_negative_label Q _)) TRUE) lit_1e_20 = true)
    by (vm_compute; reflexivity).
  split; [split; assumption | ].
  exact (@clip_zeroes_negative_label_sum w_negative_label TRUE Hd Hgt).
Defined.

(** The same on IEEE doubles, where the prediction goes from -1 to 0. *)
Example clip_zeroes_negative_label_sum_on_doubles :
  C_regress_call (@w_negative_label float _) 0%float false
    = [[(-1)%float]; [(-1)%float]; [(-1)%float]] /\
  C_regress_call (clip TRUE (@w_negative_label float _)) 0%float false
    = [[0%float]; [0%float]; [0%float]].
Proof. split; vm_compute; reflexivity. Qed.

(** X19.  In exact arithmetic [can_beat] keeps saying yes when the missing
    term gets smaller and the best score gets larger, whatever the
    accumulators passed to it, which it does not read. *)
Theorem can_beat_monotone (w w' : W_regress Q) (m m' z_best z_best' : Q) :
  can_beat w m z_best = true ->
  (m' <= m)%Q -> (z_best <= z_best')%Q ->
  can_beat w' m' z_best' = true.
Proof.
  unfold can_beat. cbn [less_equal times lit_1_0001 Exact.scalar].
  intros Hcb Hm Hz. apply Qle_bool_iff in Hcb. apply Qle_bool_iff. lra.
Qed.

Lemma can_beat_monotone_witness :
  can_beat (@W_zero Q _) 1%Q 1%Q = true /\
  ((0 <= 1)%Q /\ (1 <= 2)%Q) /\
  can_beat (@w_five Q _) 0%Q 2%Q = true.
Proof.
  assert (Hcb : can_beat (@W_zero Q _) 1%Q 1%Q = true) by reflexivity.
  assert (Hm : (0 <= 1)%Q) by discriminate.
  assert (Hz : (1 <= 2)%Q) by discriminate.
  split; [exact Hcb | split; [split; assumption | ]].
  exact (@can_beat_monotone W_zero w_five 1%Q 0%Q 1%Q 2%Q Hcb Hm Hz).
Defined.

(** X20.  In exact arithmetic the factor 1.0001 of [can_beat] is a tolerance
    only for a best score that is not negative: then a missing term up
    to the best score can beat it.  For a negative best score the test
    is stricter than [missing <= z_best]: the best score itself cannot
    beat it, and no coherent state can, the [none] flag -1 included. *)
Theorem can_beat_tolerance_by_sign (w : W_regress Q) (m z_best : Q) :
  ((0 <= z_best)%Q -> (m <= z_best)%Q -> can_beat w m z_best = true) /\
  ((z_best < 0)%Q -> can_beat w z_best z_best = false) /\
  ((z_best < 0)%Q -> coherent w ->
     can_beat w (missing w false) z_best = false) /\
  (coherent w -> can_beat w (missing w false) none = false).
Proof.
  assert (Hfalse : forall a z : Q, (z * (10001 # 10000) < a)%Q ->
                                   can_beat w a z = false).
  { intros a z Hlt. unfold can_beat.
    cbn [less_equal times lit_1_0001 Exact.scalar].
    destruct (Qle_bool a (z * (10001 # 10000))) eqn:E; [ | reflexivity].
    apply Qle_bool_iff in E. lra. }
  split; [ | split; [ | split]].
  - intros Hz Hm. unfold can_beat.
    cbn [less_equal times lit_1_0001 Exact.scalar]. apply Qle_bool_iff. lra.
  - intros Hz. apply Hfalse. lra.
  - intros Hz Hco. apply Hfalse.
    pose proof (missing_nonneg false Hco). lra.
  - intros Hco. apply Hfalse.
    pose proof (missing_nonneg false Hco).
    unfold none. cbn [lit_m1_0 Exact.scalar]. lra.
Qed.

(** X21.  In exact arithmetic, [add] calls of non-negative weight keep every
    bucket with [wt >= 0], [sqr >= 0] and [dist^2 <= sqr * wt]. *)
Theorem adds_keep_buckets_coherent (calls : list (call Q)) (w : W_regress Q) :
  Forall (fun c => is_add c = true /\ (0 <= call_weight c)%Q) calls ->
  sums_of_weighted_examples w ->
  sums_of_weighted_examples (run calls w).
Proof.
  intros Hcs. revert w.
  induction Hcs as [ | c cs [Hadd Hx] _ IH]; intros w Hw; [exact Hw | ].
  destruct c as [l b weight it adv | l from to weight it adv];
    [ | discriminate Hadd].
  change (sums_of_weighted_examples (run cs (add l b weight it adv w))).
  apply IH, add_sums_of_weighted_examples; assumption.
Qed.

(** The five examples of [w_five], from the fresh accumulator. *)
Lemma adds_keep_buckets_coherent_witness :
  Forall (fun c => is_add c = true /\ (0 <= call_weight c)%Q)
         (@five_examples Q _) /\
  sums_of_weighted_examples (@W_zero Q _) /\
  sums_of_weighted_examples (run five_examples W_zero).
Proof.
  assert (Hcs : Forall (fun c => is_add c = true /\ (0 <= call_weight c)%Q)
                       (@five_examples Q _)).
  { repeat constructor; vm_compute; discriminate. }
  split; [exact Hcs | split; [exact W_zero_sums_of_weighted_examples | ]].
  exact (@adds_keep_buckets_coherent five_examples W_zero Hcs
           W_zero_sums_of_weighted_examples).
Defined.

(** X3.  In exact arithmetic [swap_buckets(b1, b2)] swaps the predictions of
    the two buckets and keeps the prediction of the third. *)
Theorem swap_buckets_swaps_predictions (w : W_regress Q) (b1 b2 : Bucket) :
  (leaf_value (swap_buckets b1 b2 w) b1 == leaf_value w b2)%Q /\
  (leaf_value (swap_buckets b1 b2 w) b2 == leaf_value w b1)%Q /\
  (forall b : Bucket, b <> b1 -> b <> b2 ->
     (leaf_value (swap_buckets b1 b2 w) b == leaf_value w b)%Q).
Proof.
  assert (Hmean : (sample_mean (swap_buckets b1 b2 w) == sample_mean w)%Q).
  { destruct w as [[d0 d1 d2] [s0 s1 s2] [x0 x1 x2]].
    unfold sample_mean, totals, swap_buckets.
    destruct b1, b2;
      cbn [fold_left fst snd get set dist sqr wt elt0 elt1 elt2
           plus divide lit_0_0 Exact.scalar];
      try reflexivity;
      match goal with
      | |- (?n1 / ?m1 == ?n2 / ?m2)%Q =>
          assert (Hn : (n1 == n2)%Q) by ring;
          assert (Hm : (m1 == m2)%Q) by ring;
          rewrite Hn, Hm; reflexivity
      end. }
  assert (Hleaf : forall b b' : Bucket,
            get (dist (swap_buckets b1 b2 w)) b = get (dist w) b' ->
            get (wt (swap_buckets b1 b2 w)) b = get (wt w) b' ->
            (leaf_value (swap_buckets b1 b2 w) b == leaf_value w b')%Q).
  { intros b b' Hd Hw. unfold leaf_value. rewrite Hd, Hw.
    destruct (greater (get (wt w) b') lit_1e_20); [reflexivity | ].
    cbn [to_float Exact.scalar]. exact Hmean. }
  destruct w as [[d0 d1 d2] [s0 s1 s2] [x0 x1 x2]].
  split; [ | split].
  - apply Hleaf; destruct b1, b2; reflexivity.
  - apply Hleaf; destruct b1, b2; reflexivity.
  - intros b Hb1 Hb2. apply Hleaf; destruct b1, b2, b; try reflexivity; congruence.
Qed.
